(** * react-svg-timeline: viewport engine and mark layering

    A shallow embedding of [src/Timeline.tsx] and [src/Marks.tsx].

    JavaScript numbers are IEEE-754 binary64 values and are modelled by Rocq's
    primitive floats, so [NaN], the infinities, signed zeros and the
    truthiness of numbers behave as they do in the source.  React state is an
    explicit record threaded through the handlers; [requestAnimationFrame]
    callbacks are an explicit queue of closures. *)

From Stdlib Require Import ZArith Floats Bool List String Arith Lia Permutation.
Import ListNotations.

Open Scope float_scope.

(** ** JavaScript numbers *)

Module JS.

Definition number := float.

(** [ToBoolean] on a Number: [+0], [-0] and [NaN] are falsy. *)
Definition truthy (x : number) : bool := negb (is_zero x || is_nan x).

(** [a || b] on numbers. *)
Definition or_else (a b : number) : number := if truthy a then a else b.

(** [x >= y] and [x > y]; both are false as soon as one side is [NaN]. *)
Definition geb (x y : number) : bool := y <=? x.
Definition gtb (x y : number) : bool := y <? x.

(** [x === y] on numbers: [NaN] differs from itself, [+0 === -0]. *)
Definition strict_eq (x y : number) : bool := x =? y.

Definition is_pos_zero (x : number) : bool :=
  match classify x with PZero => true | _ => false end.
Definition is_neg_zero (x : number) : bool :=
  match classify x with NZero => true | _ => false end.

(** [Math.min(...values)]: [+Infinity] without arguments, [NaN] as soon as
    one argument is [NaN], and [-0] counts as smaller than [+0]. *)
Definition min_step (lowest x : number) : number :=
  if is_neg_zero x && is_pos_zero lowest then x
  else if x <? lowest then x else lowest.

Definition Math_min (values : list number) : number :=
  if existsb is_nan values then nan else fold_left min_step values infinity.

(** [Math.max(...values)]: [-Infinity] without arguments. *)
Definition max_step (highest x : number) : number :=
  if is_pos_zero x && is_neg_zero highest then x
  else if gtb x highest then x else highest.

Definition Math_max (values : list number) : number :=
  if existsb is_nan values then nan
  else fold_left max_step values neg_infinity.

(** Truthiness of a string: only the empty string is falsy. *)
Definition truthy_string (s : string) : bool :=
  match s with EmptyString => false | _ => true end.

End JS.

(** ** Data model *)

(** Modelled from the spec: the declarations of [./model] ([Domain],
    [TimelineEvent], [EventComponentRole]) are not part of the sources at
    hand; the fields are those of section 3 of the specification and those
    the two components read.  An absent optional field is [None]; an absent
    [isSelected] or [isPinned] is [false], which is how the code reads it. *)
Definition Domain : Type := JS.number * JS.number.

(** [endTimeMillis] is present for a period event and absent for an instant
    event. *)
Record TimelineEvent : Type := mkEvent {
  eventId : string;
  laneId : string;
  startTimeMillis : JS.number;
  endTimeMillis : option JS.number;
  isSelected : bool;
  isPinned : bool;
  color : option string;
  tooltip : option string
}.

Inductive EventComponentRole : Type := background | foreground.

(** An instant event at [t] and a period event from [s] to [e]. *)
Definition instant (id : string) (t : JS.number) : TimelineEvent :=
  mkEvent id "lane" t None false false None None.

Definition period (id : string) (s e : JS.number) : TimelineEvent :=
  mkEvent id "lane" s (Some e) false false None None.

(** The truthiness test [e.endTimeMillis ? ... : ...] the components use. *)
Definition endTruthy (e : TimelineEvent) : bool :=
  match endTimeMillis e with
  | Some x => JS.truthy x
  | None => false
  end.

(** ** Timeline.tsx *)

(** [calcMaxDomain] *)
Definition calcMaxDomain (events : list TimelineEvent) : Domain :=
  let timeMin := JS.Math_min (map startTimeMillis events) in
  let timeMax :=
    JS.Math_max
      (map (fun e => match endTimeMillis e with
                     | None => startTimeMillis e
                     | Some x => x
                     end) events) in
  (JS.or_else timeMin nan, JS.or_else timeMax nan).

Definition animationDuration : JS.number := 1000.

(** The predicate of the [events.filter] that computes [eventsInsideDomain]. *)
Definition isStartInView (domain : Domain) (e : TimelineEvent) : bool :=
  JS.geb (startTimeMillis e) (fst domain) && (startTimeMillis e <=? snd domain).

Definition isEndInView (domain : Domain) (e : TimelineEvent) : bool :=
  match endTimeMillis e with
  | Some x => JS.truthy x && JS.geb x (fst domain) && (x <=? snd domain)
  | None => false
  end.

Definition isSpanningAcrossView (domain : Domain) (e : TimelineEvent) : bool :=
  match endTimeMillis e with
  | Some x =>
      JS.truthy x && (startTimeMillis e <? fst domain) && JS.gtb x (snd domain)
  | None => false
  end.

Definition insideDomain (domain : Domain) (e : TimelineEvent) : bool :=
  isStartInView domain e || isEndInView domain e || isSpanningAcrossView domain e.

Definition eventsInsideDomain
    (events : list TimelineEvent) (domain : Domain) : list TimelineEvent :=
  filter (insideDomain domain) events.

(** [eventsInsideDomain.filter((e) => e.isSelected).length === 0] *)
Definition isNoEventSelected
    (events : list TimelineEvent) (domain : Domain) : bool :=
  Nat.eqb (List.length (filter isSelected (eventsInsideDomain events domain))) 0.

(** *** Component state

    [type Animation = 'none' | Readonly<{ startMs, fromDomain, toDomain }>] *)
Record Tween : Type := mkTween {
  startMs : JS.number;
  fromDomain : Domain;
  toDomain : Domain
}.

Inductive Animation : Type :=
| none
| running (a : Tween).

(** The closure handed to [requestAnimationFrame] by the animation effect: it
    captures [animatedDomain] and the [animation] of the render it was created
    in. *)
Record Frame : Type := mkFrame {
  animatedDomain : Domain;
  frameAnimation : Tween
}.

(** What React remembers of the dependency array [[animation, now]] of the
    animation effect, from the last render.  The array is compared with
    [Object.is]: a tween is an object, the same as itself only, and every
    [setAnimation({...})] stores a new object; ['none'] is a string, the same
    as any ['none'].  [depNone] says that the remembered animation is
    ['none'], [depCurrent] that it is the very object the animation cell
    holds now, and [depNow] is the remembered [now] ([None] for the first
    render, whose time is not part of the model: a later render is taken to
    happen at another time). *)
Record AnimationDeps : Type := mkAnimationDeps {
  depNone : bool;
  depCurrent : bool;
  depNow : option JS.number
}.

(** The three [useState] cells, the dependencies React remembers for the two
    effects that have some, and the browser's queue of pending
    animation-frame callbacks (oldest first). *)
Record ViewState : Type := mkView {
  domain : Domain;
  animation : Animation;
  isMouseOverEvent : bool;
  extentDeps : Domain;
  pendingFrames : list Frame;
  animationDeps : AnimationDeps
}.

Definition setDomain (d : Domain) (s : ViewState) : ViewState :=
  mkView d (animation s) (isMouseOverEvent s) (extentDeps s) (pendingFrames s)
         (animationDeps s).

(** A tween stored in the cell is a new object: it is not the remembered
    one. *)
Definition setAnimation (a : Animation) (s : ViewState) : ViewState :=
  mkView (domain s) a (isMouseOverEvent s) (extentDeps s) (pendingFrames s)
         (match a with
          | none => animationDeps s
          | running _ =>
              mkAnimationDeps (depNone (animationDeps s)) false
                              (depNow (animationDeps s))
          end).

Definition setIsMouseOverEvent (b : bool) (s : ViewState) : ViewState :=
  mkView (domain s) (animation s) b (extentDeps s) (pendingFrames s)
         (animationDeps s).

Definition setExtentDeps (d : Domain) (s : ViewState) : ViewState :=
  mkView (domain s) (animation s) (isMouseOverEvent s) d (pendingFrames s)
         (animationDeps s).

Definition setAnimationDeps (d : AnimationDeps) (s : ViewState) : ViewState :=
  mkView (domain s) (animation s) (isMouseOverEvent s) (extentDeps s)
         (pendingFrames s) d.

Definition requestAnimationFrame (f : Frame) (s : ViewState) : ViewState :=
  mkView (domain s) (animation s) (isMouseOverEvent s) (extentDeps s)
         (pendingFrames s ++ [f]) (animationDeps s).

Record Props : Type := mkProps {
  width : JS.number;
  events : list TimelineEvent
}.

(** State after the first render: [useState(maxDomain)], [useState('none')],
    [useState(false)]. *)
Definition mount (p : Props) : ViewState :=
  mkView (calcMaxDomain (events p)) none false (calcMaxDomain (events p)) []
         (mkAnimationDeps true false None).

(** *** Effects *)

(** [useEffect(() => { setAnimation('none'); setDomain([maxDomainStart,
    maxDomainEnd]) }, [maxDomainStart, maxDomainEnd])] *)
Definition extentEffect (maxDomain : Domain) (s : ViewState) : ViewState :=
  setDomain (fst maxDomain, snd maxDomain) (setAnimation none s).

(** The body of the callback given to [requestAnimationFrame]. *)
Definition runFrame (f : Frame) (s : ViewState) : ViewState :=
  let s' := setDomain (animatedDomain f) s in
  if JS.strict_eq (fst (animatedDomain f)) (fst (toDomain (frameAnimation f)))
     && JS.strict_eq (snd (animatedDomain f)) (snd (toDomain (frameAnimation f)))
  then setAnimation none s'
  else s'.

(** The animation effect of a render made at wall-clock [now] in which the
    state cell [animation] held [rendered]. *)
Definition animationEffect
    (now : JS.number) (rendered : Animation) (s : ViewState) : ViewState :=
  match rendered with
  | none => s
  | running a =>
      let elapsed := now - startMs a in
      if elapsed <? animationDuration then
        let t := elapsed / animationDuration in
        let deltaStart := t * (fst (toDomain a) - fst (fromDomain a)) in
        let deltaEnd := t * (snd (toDomain a) - snd (fromDomain a)) in
        let animated : Domain :=
          (fst (fromDomain a) + deltaStart, snd (fromDomain a) + deltaEnd) in
        requestAnimationFrame (mkFrame animated a) s
      else
        setAnimation none (setDomain (toDomain a) s)
  end.

(** Dependency arrays are compared with [Object.is]: [NaN] is the same as
    [NaN], [+0] is not the same as [-0]. *)
Definition sameDeps (d d' : Domain) : bool :=
  PrimFloat.Leibniz.eqb (fst d) (fst d') && PrimFloat.Leibniz.eqb (snd d) (snd d').

(** Whether the animation effect runs in a render at [now]: one of
    [[animation, now]] is not the same as in the last render. *)
Definition animationChanged (s : ViewState) : bool :=
  match animation s with
  | none => negb (depNone (animationDeps s))
  | running _ => negb (depCurrent (animationDeps s))
  end.

Definition nowChanged (now : JS.number) (s : ViewState) : bool :=
  match depNow (animationDeps s) with
  | None => true
  | Some previous => negb (PrimFloat.Leibniz.eqb previous now)
  end.

Definition animationEffectRuns (now : JS.number) (s : ViewState) : bool :=
  animationChanged s || nowChanged now s.

(** The dependencies React remembers after a render of [s] at [now]. *)
Definition renderedDeps (now : JS.number) (s : ViewState) : AnimationDeps :=
  match animation s with
  | none => mkAnimationDeps true false (Some now)
  | running _ => mkAnimationDeps false true (Some now)
  end.

(** One render and commit at wall-clock [now]: the effects whose
    dependencies changed run in source order, each seeing the state cells of
    the render that created it. *)
Definition commit (p : Props) (now : JS.number) (s : ViewState) : ViewState :=
  let maxDomain := calcMaxDomain (events p) in
  let s1 := if sameDeps (extentDeps s) maxDomain then s
            else extentEffect maxDomain s in
  let s2 := if animationEffectRuns now s
            then animationEffect now (animation s) s1
            else s1 in
  setAnimationDeps (renderedDeps now s) (setExtentDeps maxDomain s2).

(** The browser runs the oldest pending animation-frame callback. *)
Definition animationFrame (s : ViewState) : ViewState :=
  match pendingFrames s with
  | [] => s
  | f :: rest =>
      runFrame f (mkView (domain s) (animation s) (isMouseOverEvent s)
                         (extentDeps s) rest (animationDeps s))
  end.

(** *** Handlers

    The zoom ladder ([./ZoomScale]) and the linear scale of [d3-scale] are
    collaborators outside the two files; the handlers are stated over any
    implementation of them. *)
Section Handlers.

Variable ZoomScale : Type.
Variable nextSmallerZoomScale : Domain -> ZoomScale.
Variable nextBiggerZoomScale : Domain -> ZoomScale.
Variable zoomScaleWidth : ZoomScale -> JS.number.

(** [scaleLinear().domain(d).range(r).invert(x)] *)
Variable scaleInvert : Domain -> JS.number * JS.number -> JS.number -> JS.number.

Variable p : Props.

Definition maxDomainStart : JS.number := fst (calcMaxDomain (events p)).
Definition maxDomainEnd : JS.number := snd (calcMaxDomain (events p)).

Definition isAnimationInProgress (s : ViewState) : bool :=
  match animation s with none => false | running _ => true end.

Definition isDomainChangePossible (s : ViewState) : bool :=
  negb (isAnimationInProgress s) && negb (isMouseOverEvent s).

Definition timeScalePadding : JS.number := 50.

(** [timeScale.range()] *)
Definition timeScaleRange : JS.number * JS.number :=
  (timeScalePadding, width p - timeScalePadding).

Definition timeScaleInvert (s : ViewState) (x : JS.number) : JS.number :=
  scaleInvert (domain s) timeScaleRange x.

Definition getDomainSpan (time w : JS.number) : Domain :=
  (JS.Math_max [maxDomainStart; time - w / 2],
   JS.Math_min [maxDomainEnd; time + w / 2]).

(** [setDomainAnimated]; [clock] is the value of [Date.now()]. *)
Definition setDomainAnimated
    (clock : JS.number) (newDomain : Domain) (s : ViewState) : ViewState :=
  setAnimation (running (mkTween clock (domain s) newDomain)) s.

Definition updateDomain
    (zoomScale : ZoomScale) (mouseX clock : JS.number) (s : ViewState)
  : ViewState :=
  if isDomainChangePossible s then
    let newZoomWidth := zoomScaleWidth zoomScale in
    setDomainAnimated clock
      (getDomainSpan (timeScaleInvert s mouseX) newZoomWidth) s
  else s.

Definition onZoomIn (mouseX clock : JS.number) (s : ViewState) : ViewState :=
  updateDomain (nextSmallerZoomScale (domain s)) mouseX clock s.

Definition onZoomOut (mouseX clock : JS.number) (s : ViewState) : ViewState :=
  updateDomain (nextBiggerZoomScale (domain s)) mouseX clock s.

Definition onZoomInCustom
    (mouseStartX mouseEndX clock : JS.number) (s : ViewState) : ViewState :=
  if isDomainChangePossible s then
    let newMin := timeScaleInvert s mouseStartX in
    let newMax := timeScaleInvert s mouseEndX in
    setDomainAnimated clock (newMin, newMax) s
  else s.

Definition onZoomReset (clock : JS.number) (s : ViewState) : ViewState :=
  if isDomainChangePossible s then
    setDomainAnimated clock (maxDomainStart, maxDomainEnd) s
  else s.

(** The domain [onPan] tries to move to. *)
Definition pannedDomain (pixelDelta : JS.number) (s : ViewState) : Domain :=
  let '(domainMin, domainMax) := domain s in
  let '(rangeMin, rangeMax) := timeScaleRange in
  let domainDelta :=
    (pixelDelta / (rangeMax - rangeMin)) * (domainMax - domainMin) in
  (domainMin + domainDelta, domainMax + domainDelta).

Definition onPan (pixelDelta : JS.number) (s : ViewState) : ViewState :=
  if isDomainChangePossible s then
    let '(newDomainMin, newDomainMax) := pannedDomain pixelDelta s in
    if JS.gtb newDomainMin maxDomainStart && (newDomainMax <? maxDomainEnd)
    then setDomain (newDomainMin, newDomainMax) s
    else s
  else s.

Definition onEventHoverDecorated (s : ViewState) : ViewState :=
  setIsMouseOverEvent true s.

Definition onEventUnhoverDecorated (s : ViewState) : ViewState :=
  setIsMouseOverEvent false s.

(** [currentDomainWidth < maxDomainWidth] *)
Definition isZoomOutPossible (s : ViewState) : bool :=
  (snd (domain s) - fst (domain s)) <? (maxDomainEnd - maxDomainStart).

(** [suppressMarkAnimation ? !isAnimationInProgress : true] *)
Definition showMarks (suppressMarkAnimation : bool) (s : ViewState) : bool :=
  if suppressMarkAnimation then negb (isAnimationInProgress s) else true.

(** The two preview handlers report to [onCursorMove]; their result is the
    argument list of that call, [None] when no call is made.
    [hasOnCursorMove] tells whether the optional callback was given. *)
Definition onZoomScrub
    (hasOnCursorMove : bool) (mouseX : JS.number) (s : ViewState)
  : option (JS.number * JS.number * JS.number) :=
  if hasOnCursorMove then
    let timeAtCursor := timeScaleInvert s mouseX in
    let zoomWidth := zoomScaleWidth (nextSmallerZoomScale (domain s)) in
    let span := getDomainSpan timeAtCursor zoomWidth in
    Some (timeAtCursor, fst span, snd span)
  else None.

Definition onZoomInCustomInProgress
    (hasOnCursorMove : bool) (mouseStartX mouseEndX : JS.number) (s : ViewState)
  : option (JS.number * JS.number * JS.number) :=
  if isDomainChangePossible s && hasOnCursorMove then
    let newMin := timeScaleInvert s mouseStartX in
    let newMax := timeScaleInvert s mouseEndX in
    Some (newMax, newMin, newMax)
  else None.

End Handlers.

(** ** Array.prototype.sort

    ECMAScript leaves the sequence of comparator calls to the engine.  An
    engine is modelled by the permutation of positions it answers when it may
    only ask for the sign of [comparefn] on two positions of the array: every
    engine returns a permutation, and its answer depends on the comparator
    only through the calls it can make. *)
Module Sort.

(** The sign the engine reads off a comparator result ([NaN] counts as
    [+0]). *)
Definition sign (v : JS.number) : comparison :=
  if v <? 0 then Lt else if 0 <? v then Gt else Eq.

Definition Oracle : Type := nat -> nat -> comparison.

Definition Engine : Type := nat -> Oracle -> list nat.

(** What every engine guarantees. *)
Definition permutes (run : Engine) : Prop :=
  forall n c, Permutation (run n c) (seq 0 n).

Definition extensional (run : Engine) : Prop :=
  forall n c c',
    (forall i j, (i < n)%nat -> (j < n)%nat -> c i j = c' i j) ->
    run n c = run n c'.

Definition lawful (run : Engine) : Prop := permutes run /\ extensional run.

Definition pick {A : Type} (l : list A) (positions : list nat) : list A :=
  flat_map (fun i => match nth_error l i with
                     | Some x => [x]
                     | None => []
                     end) positions.

Definition oracle {A : Type} (comparefn : A -> A -> JS.number) (l : list A)
  : Oracle :=
  fun i j =>
    match nth_error l i, nth_error l j with
    | Some x, Some y => sign (comparefn x y)
    | _, _ => Eq
    end.

(** [l.sort(comparefn)] *)
Definition array_sort {A : Type}
    (E : Engine) (comparefn : A -> A -> JS.number) (l : list A) : list A :=
  pick l (E (List.length l) (oracle comparefn l)).

(** *** Two engines *)

(** Straight insertion: the element at position [x] moves left past every
    element that compares greater than it.  [sorted] is kept in reverse. *)
Fixpoint insertLinear (c : Oracle) (x : nat) (sorted : list nat) : list nat :=
  match sorted with
  | [] => [x]
  | y :: rest =>
      match c y x with
      | Gt => y :: insertLinear c x rest
      | _ => x :: sorted
      end
  end.

Definition linearRun : Engine := fun n c =>
  rev (fold_left (fun acc x => insertLinear c x acc) (seq 0 n) []).

(** Binary insertion: the place of [x] in the sorted prefix is found by
    bisection, going left when [x] compares less than the probed element. *)
Fixpoint bisect (fuel : nat) (c : Oracle) (x : nat) (sorted : list nat)
    (left right : nat) : nat :=
  match fuel with
  | O => left
  | S fuel' =>
      if (left <? right)%nat then
        let mid := (left + (right - left) / 2)%nat in
        match nth_error sorted mid with
        | Some y =>
            match c x y with
            | Lt => bisect fuel' c x sorted left mid
            | _ => bisect fuel' c x sorted (S mid) right
            end
        | None => left
        end
      else left
  end.

Definition insertBinary (c : Oracle) (x : nat) (sorted : list nat) : list nat :=
  let k := bisect (List.length sorted) c x sorted 0 (List.length sorted) in
  firstn k sorted ++ x :: skipn k sorted.

Definition binaryRun : Engine := fun n c =>
  fold_left (fun acc x => insertBinary c x acc) (seq 0 n) [].

End Sort.

(** ** Marks.tsx *)

(** The function handed to [sort]: it has one parameter. *)
Definition sortByEventDuration (e : TimelineEvent) : JS.number :=
  - (match endTimeMillis e with
     | Some x => if JS.truthy x then x - startTimeMillis e else 0
     | None => 0
     end).

(** [sort] calls its argument with two elements; a function of one parameter
    drops the second. *)
Definition sortComparefn (a b : TimelineEvent) : JS.number :=
  sortByEventDuration a.

(** One [InteractiveEventMark] with the child made by [eventComponentFactory]
    for [markRole]. *)
Record Mark : Type := mkMark {
  key : string;
  markEvent : TimelineEvent;
  markRole : EventComponentRole
}.

Definition interactiveEventMark (role : EventComponentRole) (e : TimelineEvent)
  : Mark := mkMark (eventId e) e role.

(** The three functions given to [useMemo]: what each pass computes from the
    events when its memo cell is recomputed. *)
Definition backgroundMarks (evs : list TimelineEvent) : list Mark :=
  map (interactiveEventMark background) evs.

Definition foregroundMarks (E : Sort.Engine) (evs : list TimelineEvent)
  : list Mark :=
  map (interactiveEventMark foreground)
      (Sort.array_sort E sortComparefn (filter (fun _ => true) evs)).

Definition selectionMarks (E : Sort.Engine) (evs : list TimelineEvent)
  : list Mark :=
  map (interactiveEventMark foreground)
      (Sort.array_sort E sortComparefn (filter isSelected evs)).

(** The children of the returned [<g>], in document (painting) order, in a
    render that computes the three lists from [evs] (the first render, and
    every render whose memo keys all differ from the previous ones);
    [renderMarks] below is the render with the memo cells. *)
Definition Marks (E : Sort.Engine) (evs : list TimelineEvent) : list Mark :=
  backgroundMarks evs ++ foregroundMarks E evs ++ selectionMarks E evs.

(** *** Memoization

    The three lists are memoized on strings made by [JSON.stringify].  A key
    is modelled by the content the text keeps, so that two keys are equal
    when the texts are: [NaN] and the infinities are printed [null], [-0] is
    printed [0], and the replacer of [comparableEventsIgnoringSelection]
    drops [isSelected].  (The order in which an application writes the
    properties of an event object is not part of the model, nor is the
    difference between an absent and a false [isSelected] or [isPinned].) *)
Definition jsonNumber (x : JS.number) : JS.number :=
  if is_nan x || is_infinity x then nan
  else if is_zero x then 0
  else x.

Definition jsonView (ignoreSelection : bool) (e : TimelineEvent)
  : TimelineEvent :=
  mkEvent (eventId e) (laneId e)
          (jsonNumber (startTimeMillis e))
          (option_map jsonNumber (endTimeMillis e))
          (if ignoreSelection then false else isSelected e)
          (isPinned e) (color e) (tooltip e).

(** [JSON.stringify({ domain: timeScale.domain(), range: timeScale.range() })]
    and the key of a pass: the events as the pass sees them, and the scale. *)
Definition ScaleKey : Type :=
  JS.number * JS.number * (JS.number * JS.number).

Definition comparableTimeScale
    (timeDomain : Domain) (timeRange : JS.number * JS.number) : ScaleKey :=
  (jsonNumber (fst timeDomain), jsonNumber (snd timeDomain),
   (jsonNumber (fst timeRange), jsonNumber (snd timeRange))).

Definition MarksKey : Type := list TimelineEvent * ScaleKey.

Definition comparableEvents (evs : list TimelineEvent) : list TimelineEvent :=
  map (jsonView false) evs.

Definition comparableEventsIgnoringSelection (evs : list TimelineEvent)
  : list TimelineEvent :=
  map (jsonView true) evs.

(** Equality of keys: the dependencies of [useMemo] are compared with
    [Object.is], which on strings is equality of the texts. *)
Definition option_eqb {A : Type} (eqb : A -> A -> bool) (x y : option A) : bool :=
  match x, y with
  | Some a, Some b => eqb a b
  | None, None => true
  | _, _ => false
  end.

Fixpoint list_eqb {A : Type} (eqb : A -> A -> bool) (l l' : list A) : bool :=
  match l, l' with
  | [], [] => true
  | a :: l, b :: l' => eqb a b && list_eqb eqb l l'
  | _, _ => false
  end.

Definition event_eqb (e e' : TimelineEvent) : bool :=
  String.eqb (eventId e) (eventId e')
  && String.eqb (laneId e) (laneId e')
  && PrimFloat.Leibniz.eqb (startTimeMillis e) (startTimeMillis e')
  && option_eqb PrimFloat.Leibniz.eqb (endTimeMillis e) (endTimeMillis e')
  && Bool.eqb (isSelected e) (isSelected e')
  && Bool.eqb (isPinned e) (isPinned e')
  && option_eqb String.eqb (color e) (color e')
  && option_eqb String.eqb (tooltip e) (tooltip e').

Definition scale_eqb (k k' : ScaleKey) : bool :=
  PrimFloat.Leibniz.eqb (fst (fst k)) (fst (fst k'))
  && PrimFloat.Leibniz.eqb (snd (fst k)) (snd (fst k'))
  && PrimFloat.Leibniz.eqb (fst (snd k)) (fst (snd k'))
  && PrimFloat.Leibniz.eqb (snd (snd k)) (snd (snd k')).

Definition key_eqb (k k' : MarksKey) : bool :=
  list_eqb event_eqb (fst k) (fst k') && scale_eqb (snd k) (snd k').

(** A memo cell: the dependencies and the value of the last computation. *)
Record Memo : Type := mkMemo {
  memoDeps : MarksKey;
  memoValue : list Mark
}.

(** [useMemo(() => compute, deps)] on a cell: the value is computed on the
    first render and when the dependencies changed. *)
Definition useMemo (cell : option Memo) (deps : MarksKey) (compute : list Mark)
  : Memo :=
  match cell with
  | Some m => if key_eqb (memoDeps m) deps then m else mkMemo deps compute
  | None => mkMemo deps compute
  end.

(** The memo cells of one [Marks] instance. *)
Record MarksHooks : Type := mkMarksHooks {
  backgroundCell : option Memo;
  foregroundCell : option Memo;
  selectionCell : option Memo
}.

Definition firstRender : MarksHooks := mkMarksHooks None None None.

(** One render of [Marks]: the children of the returned [<g>] and the memo
    cells it leaves. *)
Definition renderMarks
    (E : Sort.Engine) (hooks : MarksHooks) (evs : list TimelineEvent)
    (timeDomain : Domain) (timeRange : JS.number * JS.number)
  : list Mark * MarksHooks :=
  let scaleKey := comparableTimeScale timeDomain timeRange in
  let agnostic : MarksKey := (comparableEventsIgnoringSelection evs, scaleKey) in
  let full : MarksKey := (comparableEvents evs, scaleKey) in
  let bg := useMemo (backgroundCell hooks) agnostic (backgroundMarks evs) in
  let fg := useMemo (foregroundCell hooks) agnostic (foregroundMarks E evs) in
  let sel := useMemo (selectionCell hooks) full (selectionMarks E evs) in
  (memoValue bg ++ memoValue fg ++ memoValue sel,
   mkMarksHooks (Some bg) (Some fg) (Some sel)).

(** The memo cells after a sequence of renders, oldest first, each with its
    events and scale. *)
Definition RenderProps : Type :=
  list TimelineEvent * (Domain * (JS.number * JS.number)).

Definition renderHistory (E : Sort.Engine) (history : list RenderProps)
  : MarksHooks :=
  fold_left (fun hooks r =>
               snd (renderMarks E hooks (fst r) (fst (snd r)) (snd (snd r))))
            history firstRender.

(** What the value of a memo cell has to do with its key, for each pass. *)
Definition backgroundOk (k : MarksKey) (v : list Mark) : Prop :=
  map (jsonView true) (map markEvent v) = fst k.

Definition foregroundOk (k : MarksKey) (v : list Mark) : Prop :=
  Permutation (map (jsonView true) (map markEvent v)) (fst k).

Definition selectionOk (k : MarksKey) (v : list Mark) : Prop :=
  Permutation (map (jsonView false) (map markEvent v))
              (filter isSelected (fst k)).

Definition cellOk (P : MarksKey -> list Mark -> Prop) (cell : option Memo)
  : Prop :=
  forall m, cell = Some m -> P (memoDeps m) (memoValue m).

Definition hooksOk (hooks : MarksHooks) : Prop :=
  cellOk backgroundOk (backgroundCell hooks) /\
  cellOk foregroundOk (foregroundCell hooks) /\
  cellOk selectionOk (selectionCell hooks).

(** *** Default marks *)

(** The four classes of [useStyles]. *)
Inductive ClassName : Type :=
| eventBackground
| eventRect
| eventCircle
| selectedEvent.

(** [<circle cx cy r />] and [<rect x y width height />]. *)
Inductive Shape : Type :=
| circle (cx cy r : JS.number)
| rect (x y w h : JS.number).

Record SvgMark : Type := mkSvgMark {
  shape : Shape;
  className : ClassName;
  fill : string;
  stroke : option string
}.

Section DefaultMarks.

(** [scaleLinear().domain(d).range(r)(x)] of [d3-scale], the scale's domain
    and range, [defaultEventColor] of [./shared], and whether
    [theme.palette.type === 'dark']. *)
Variable scaleApply : Domain -> JS.number * JS.number -> JS.number -> JS.number.
Variable timeDomain : Domain.
Variable timeRange : JS.number * JS.number.
Variable defaultEventColor : string.
Variable darkTheme : bool.

(** [eventMarkerHeight] is an optional property with default 20. *)
Definition DefaultEventMark
    (e : TimelineEvent) (eventMarkerHeight : option JS.number)
    (cls : ClassName) (y : JS.number) : SvgMark :=
  let h := match eventMarkerHeight with Some h => h | None => 20 end in
  let startX := scaleApply timeDomain timeRange (startTimeMillis e) in
  let strokeColor :=
    if isPinned e
    then Some (if darkTheme then "white"%string else "black"%string)
    else None in
  let fillColor :=
    match color e with
    | Some c => if JS.truthy_string c then c else defaultEventColor
    | None => defaultEventColor
    end in
  match endTimeMillis e with
  | None => mkSvgMark (circle startX y (h / 2)) cls fillColor strokeColor
  | Some x =>
      let endX := scaleApply timeDomain timeRange x in
      let width := endX - startX in
      mkSvgMark (rect startX (y - h / 2) width h) cls fillColor strokeColor
  end.

Definition defaultEventComponent
    (e : TimelineEvent) (role : EventComponentRole)
    (eventMarkerHeight : option JS.number) (y : JS.number) : SvgMark :=
  match role with
  | background => DefaultEventMark e eventMarkerHeight eventBackground y
  | foreground =>
      if isSelected e then DefaultEventMark e eventMarkerHeight selectedEvent y
      else if endTruthy e then DefaultEventMark e eventMarkerHeight eventRect y
      else DefaultEventMark e eventMarkerHeight eventCircle y
  end.

End DefaultMarks.

(** *** Tooltips *)

(** [type: { singleEventX: number } | 'period'] *)
Inductive TooltipType : Type :=
| periodType
| singleEvent (singleEventX : JS.number).

Record TooltipGeometry : Type := mkTooltip {
  boxX : JS.number;
  boxY : JS.number;
  boxWidth : JS.number;
  boxHeight : JS.number;
  tipX : JS.number;
  baseY : JS.number
}.

Definition tooltipWidth (type : TooltipType) : JS.number :=
  match type with periodType => 180 | singleEvent _ => 100 end.

Definition tooltipX (type : TooltipType) (xOffset : JS.number) : JS.number :=
  match type with
  | periodType => 0
  | singleEvent singleEventX => singleEventX - xOffset
  end.

Section Tooltip.

(** [scaleLinear().domain(d).range(r)(x)] of [d3-scale]. *)
Variable scaleApply : Domain -> JS.number * JS.number -> JS.number -> JS.number.

(** What [EventTooltip] draws when the host calls its child with
    [(xOffset, yOffset)]. *)
Definition EventTooltip
    (type : TooltipType) (y parentWidth xOffset yOffset : JS.number)
  : TooltipGeometry :=
  let w := tooltipWidth type in
  let height := 30 in
  let tx := tooltipX type xOffset in
  let tooltipYPadding := 12 in
  let tooltipY := y - yOffset - height - tooltipYPadding in
  let safetyMargin := 15 in
  let tooltipOffset :=
    scaleApply (0, parentWidth) (safetyMargin, w - safetyMargin) in
  let arrowDimension := 20 in
  mkTooltip (tx - tooltipOffset xOffset) (tooltipY - arrowDimension / 2)
            w height tx tooltipY.

(** The tooltip part of [InteractiveEventMark]: [None] is the empty [<g />]. *)
Definition eventTooltipType
    (timeDomain : Domain) (timeRange : JS.number * JS.number)
    (e : TimelineEvent) : TooltipType :=
  let startX := scaleApply timeDomain timeRange (startTimeMillis e) in
  if endTruthy e then periodType else singleEvent startX.

Definition interactiveEventTooltip
    (timeDomain : Domain) (timeRange : JS.number * JS.number)
    (y : JS.number) (e : TimelineEvent) (xOffset yOffset : JS.number)
  : option TooltipGeometry :=
  let parentWidth := snd timeRange in
  match tooltip e with
  | Some text =>
      if JS.truthy_string text then
        Some (EventTooltip (eventTooltipType timeDomain timeRange e)
                           y parentWidth xOffset yOffset)
      else None
  | None => None
  end.

End Tooltip.

(** The tooltip host ([react-svg-tooltip]) draws the child at the pointer and
    passes the pointer coordinates as [(xOffset, yOffset)]: "tooltip follows
    the mouse, these offsets can be used to counteract this behavior"
    (comment in [EventTooltip]).  The on-screen abscissa of a local abscissa
    [x] is therefore [xOffset + x]. *)
Definition screenX (xOffset x : JS.number) : JS.number := xOffset + x.

(** ** The claims in the words of the specification *)

(** The visibility rule in the words of the specification: an instant event
    is visible when its start is in the domain, a period event when its end
    is in the domain or when it spans across the domain. *)
Definition specVisible (d : Domain) (e : TimelineEvent) : bool :=
  match endTimeMillis e with
  | None => JS.geb (startTimeMillis e) (fst d) && (startTimeMillis e <=? snd d)
  | Some x =>
      (JS.geb x (fst d) && (x <=? snd d))
      || ((startTimeMillis e <? fst d) && JS.gtb x (snd d))
  end.

(** Effective duration: [endTimeMillis - startTimeMillis], or 0 for an
    instant event. *)
Definition effectiveDuration (e : TimelineEvent) : JS.number :=
  match endTimeMillis e with
  | Some x => x - startTimeMillis e
  | None => 0
  end.

(** Descending effective duration: an event drawn later is never longer than
    an event drawn earlier. *)
Definition descendingByDuration (l : list TimelineEvent) : Prop :=
  forall i j a b,
    (i < j)%nat ->
    nth_error l i = Some a ->
    nth_error l j = Some b ->
    (effectiveDuration b <=? effectiveDuration a) = true.

(** Discarding stale frames: the oldest pending frame, when it was
    computed for an animation that is no longer the active one, leaves the
    domain alone when it runs. *)
Definition staleFrameDiscarded (s : ViewState) : Prop :=
  forall f rest,
    pendingFrames s = f :: rest ->
    animation s <> running (frameAnimation f) ->
    domain (animationFrame s) = domain s.

(** ** The order of numbers

    A number that is not [NaN] is ranked by a triple of integers compared
    lexicographically; the comparisons of the specification of floats are
    this order. *)
Module FloatOrder.

Definition key (f : spec_float) : Z * Z * Z :=
  match f with
  | S754_zero _ => (0, 0, 0)%Z
  | S754_nan => (0, 0, 0)%Z
  | S754_infinity false => (2, 0, 0)%Z
  | S754_infinity true => (-2, 0, 0)%Z
  | S754_finite false m e => (1, e, Zpos m)%Z
  | S754_finite true m e => (-1, - e, Zneg m)%Z
  end.

Definition k (x : float) : Z * Z * Z := key (Prim2SF x).

Definition lexlt (a b : Z * Z * Z) : Prop :=
  let '(a1, a2, a3) := a in
  let '(b1, b2, b3) := b in
  (a1 < b1 \/ (a1 = b1 /\ (a2 < b2 \/ (a2 = b2 /\ a3 < b3))))%Z.

Definition lexle (a b : Z * Z * Z) : Prop :=
  let '(a1, a2, a3) := a in
  let '(b1, b2, b3) := b in
  (a1 < b1 \/ (a1 = b1 /\ (a2 < b2 \/ (a2 = b2 /\ a3 <= b3))))%Z.

End FloatOrder.

(** [e.endTimeMillis === undefined ? e.startTimeMillis : e.endTimeMillis], the
    time [calcMaxDomain] takes the maximum of. *)
Definition endOrStart (e : TimelineEvent) : JS.number :=
  match endTimeMillis e with
  | None => startTimeMillis e
  | Some x => x
  end.

(** ** Collaborators used to run the component on concrete inputs

    A two-rung ladder stands in for [./ZoomScale], and the inverse of a linear
    scale for [d3-scale]. *)
Module Demo.

Inductive ZoomScale : Type := minimum | widest.

Definition nextSmallerZoomScale (d : Domain) : ZoomScale := minimum.
Definition nextBiggerZoomScale (d : Domain) : ZoomScale := widest.

Definition zoomScaleWidth (z : ZoomScale) : JS.number :=
  match z with minimum => 10 | widest => 1000 end.

Definition scaleInvert
    (d : Domain) (r : JS.number * JS.number) (x : JS.number) : JS.number :=
  fst d + (x - fst r) / (snd r - fst r) * (snd d - fst d).

Definition scaleApply
    (d : Domain) (r : JS.number * JS.number) (x : JS.number) : JS.number :=
  fst r + (x - fst d) / (snd d - fst d) * (snd r - fst r).

(** One period event from 1000 to 2000 on a canvas 150 wide: the time scale
    maps [[1000, 2000]] to the pixels [[50, 100]]. *)
Definition props1 : Props := mkProps 150 [period "a" 1000 2000].

(** The same canvas after the application adds an instant event at 4000. *)
Definition props2 : Props :=
  mkProps 150 [period "a" 1000 2000; instant "b" 4000].

(** A drag from pixel 50 to pixel 75 at time 0 starts a tween from
    [(1000, 2000)] to [(1000, 1500)]. *)
Definition zooming : ViewState :=
  onZoomInCustom scaleInvert props1 50 75 0 (mount props1).

(** The render at time 250 schedules a frame; before the browser runs it the
    event list is replaced and the component renders again at time 375. *)
Definition superseded : ViewState :=
  commit props2 375 (commit props1 250 zooming).

(** The tween above left to complete, then the pointer enters a mark. *)
Definition hovering : ViewState :=
  onEventHoverDecorated (commit props1 1000 zooming).

(** Two period events of durations 1 and 10. *)
Definition shortPeriod : TimelineEvent := period "short" 1000 1001.
Definition longPeriod : TimelineEvent := period "long" 1000 1010.

(** A period event and an instant event that carry a tooltip. *)
Definition labelledPeriod : TimelineEvent :=
  mkEvent "p" "lane" 1200 (Some 1800) false false None (Some "meeting"%string).

Definition labelledInstant : TimelineEvent :=
  mkEvent "i" "lane" 1500 None false false None (Some "call"%string).

(** An event list with one selected event. *)
Definition selectedInstant : TimelineEvent :=
  mkEvent "s" "lane" 1500 None true false None None.

End Demo.

(** * Properties *)

(** ** Facts about comparisons of JavaScript numbers *)

Module JSFacts.

Lemma SFcompare_antisym (x y : spec_float) :
  SFcompare y x = option_map CompOpp (SFcompare x y).
Proof.
  destruct x as [sx | sx | | sx mx ex], y as [sy | sy | | sy my ey];
    simpl; try reflexivity;
    try (destruct sx; reflexivity); try (destruct sy; reflexivity);
    try (destruct sx, sy; reflexivity).
  pose proof (Pos.compare_cont_antisym mx my Eq) as Hm. simpl in Hm.
  destruct sx, sy; simpl; try reflexivity;
    rewrite (Z.compare_antisym ex ey);
    destruct (Z.compare ex ey) eqn:He; simpl; try reflexivity;
    rewrite <- Hm; reflexivity.
Qed.

Lemma SFcompare_refl_not_nan (x : spec_float) :
  x <> S754_nan -> SFcompare x x = Some Eq.
Proof.
  destruct x as [s | s | | s m e]; simpl; intros H;
    try reflexivity; try congruence.
  - destruct s; reflexivity.
  - destruct s; rewrite Z.compare_refl;
      change (Pos.compare_cont Eq m m) with (Pos.compare m m);
      rewrite Pos.compare_refl; reflexivity.
Qed.

Lemma is_nan_spec (x : float) : is_nan x = true -> Prim2SF x = S754_nan.
Proof.
  unfold is_nan. rewrite FloatAxioms.eqb_spec. unfold SFeqb. intros H.
  destruct (Prim2SF x) as [s | s | | s m e] eqn:Hx; try reflexivity;
    rewrite SFcompare_refl_not_nan in H by discriminate; discriminate.
Qed.

Lemma leb_nan_l (x y : float) : is_nan x = true -> (x <=? y) = false.
Proof.
  intros H. rewrite FloatAxioms.leb_spec, (is_nan_spec x H). reflexivity.
Qed.

Lemma leb_nan_r (x y : float) : is_nan y = true -> (x <=? y) = false.
Proof.
  intros H. rewrite FloatAxioms.leb_spec, (is_nan_spec y H).
  destruct (Prim2SF x); reflexivity.
Qed.

Lemma ltb_nan_l (x y : float) : is_nan x = true -> (x <? y) = false.
Proof.
  intros H. rewrite FloatAxioms.ltb_spec, (is_nan_spec x H). reflexivity.
Qed.

Lemma ltb_nan_r (x y : float) : is_nan y = true -> (x <? y) = false.
Proof.
  intros H. rewrite FloatAxioms.ltb_spec, (is_nan_spec y H).
  destruct (Prim2SF x); reflexivity.
Qed.

(** [a <= b] excludes [b < a]. *)
Lemma leb_not_ltb (a b : float) : (a <=? b) = true -> (b <? a) = false.
Proof.
  rewrite FloatAxioms.leb_spec, FloatAxioms.ltb_spec. unfold SFleb, SFltb.
  rewrite (SFcompare_antisym (Prim2SF a) (Prim2SF b)).
  destruct (SFcompare (Prim2SF a) (Prim2SF b)) as [[ | | ] | ];
    simpl; congruence.
Qed.

Lemma not_nan_spec (x : float) : is_nan x = false -> Prim2SF x <> S754_nan.
Proof.
  unfold is_nan. rewrite FloatAxioms.eqb_spec. intros H Hx.
  rewrite Hx in H. discriminate.
Qed.

(** Only [+Infinity] is not below [+Infinity], and only [-Infinity] not above
    [-Infinity], among the numbers that are not [NaN]. *)
Lemma not_below_infinity (x : float) :
  is_nan x = false -> (x <? infinity) = false -> x = infinity.
Proof.
  intros Hn H. apply not_nan_spec in Hn. rewrite FloatAxioms.ltb_spec in H.
  apply Prim2SF_inj.
  destruct (Prim2SF x) as [s | s | | s m e]; try congruence;
    try discriminate; destruct s; try discriminate; reflexivity.
Qed.

Lemma not_above_neg_infinity (x : float) :
  is_nan x = false -> (neg_infinity <? x) = false -> x = neg_infinity.
Proof.
  intros Hn H. apply not_nan_spec in Hn. rewrite FloatAxioms.ltb_spec in H.
  apply Prim2SF_inj.
  destruct (Prim2SF x) as [s | s | | s m e]; try congruence;
    try discriminate; destruct s; try discriminate; reflexivity.
Qed.

Lemma Math_min_single (x : JS.number) :
  is_nan x = false -> JS.Math_min [x] = x.
Proof.
  intros Hn. unfold JS.Math_min. simpl. rewrite Hn. simpl.
  unfold JS.min_step.
  replace (JS.is_pos_zero infinity) with false by reflexivity.
  rewrite andb_false_r.
  destruct (x <? infinity) eqn:Hlt; [reflexivity | ].
  symmetry. apply not_below_infinity; assumption.
Qed.

Lemma Math_max_single (x : JS.number) :
  is_nan x = false -> JS.Math_max [x] = x.
Proof.
  intros Hn. unfold JS.Math_max. simpl. rewrite Hn. simpl.
  unfold JS.max_step, JS.gtb.
  replace (JS.is_neg_zero neg_infinity) with false by reflexivity.
  rewrite andb_false_r.
  destruct (neg_infinity <? x) eqn:Hlt; [reflexivity | ].
  symmetry. apply not_above_neg_infinity; assumption.
Qed.

End JSFacts.

(** ** Visibility filter *)

Lemma insideDomain_nan (d : Domain) (e : TimelineEvent) :
  is_nan (fst d) = true \/ is_nan (snd d) = true -> insideDomain d e = false.
Proof.
  intros Hnan. unfold insideDomain, isStartInView, isEndInView,
    isSpanningAcrossView, JS.geb, JS.gtb.
  destruct Hnan as [H | H].
  - rewrite (JSFacts.leb_nan_l _ (startTimeMillis e) H),
            (JSFacts.ltb_nan_r (startTimeMillis e) _ H).
    destruct (endTimeMillis e) as [x | ]; [ | reflexivity].
    rewrite (JSFacts.leb_nan_l _ x H).
    rewrite !andb_false_r. reflexivity.
  - rewrite (JSFacts.leb_nan_r (startTimeMillis e) _ H).
    destruct (endTimeMillis e) as [x | ];
      [ | rewrite !andb_false_r; reflexivity].
    rewrite (JSFacts.leb_nan_r x _ H), (JSFacts.ltb_nan_l _ x H).
    rewrite !andb_false_r. reflexivity.
Qed.

Lemma pick_nil {A : Type} (positions : list nat) :
  Sort.pick (@nil A) positions = [].
Proof.
  unfold Sort.pick.
  induction positions as [ | i positions IH]; simpl.
  - reflexivity.
  - destruct i; exact IH.
Qed.

Lemma Marks_nil (E : Sort.Engine) : Marks E [] = [].
Proof.
  unfold Marks, foregroundMarks, selectionMarks, Sort.array_sort. simpl.
  rewrite pick_nil. reflexivity.
Qed.

(** C10: when an endpoint of the domain is [NaN], the visibility filter keeps
    no event, whatever the event list, and no mark is drawn from its
    result. *)
Theorem eventsInsideDomain_nan_domain
    (evs : list TimelineEvent) (d : Domain) :
  is_nan (fst d) = true \/ is_nan (snd d) = true ->
  eventsInsideDomain evs d = [] /\
  forall E, Marks E (eventsInsideDomain evs d) = [].
Proof.
  intros Hnan.
  assert (Hempty : eventsInsideDomain evs d = []).
  { unfold eventsInsideDomain.
    induction evs as [ | e evs IH]; simpl.
    - reflexivity.
    - rewrite (insideDomain_nan d e Hnan). exact IH. }
  split; [exact Hempty | ].
  intros E. rewrite Hempty. apply Marks_nil.
Qed.

Lemma eventsInsideDomain_nan_domain_witness :
  eventsInsideDomain [instant "a" 1000; period "b" 500 1500] (nan, 1500) = [].
Proof.
  apply (eventsInsideDomain_nan_domain
           [instant "a" 1000; period "b" 500 1500] (nan, 1500)).
  left. reflexivity.
Defined.

(** C2, as stated, fails: a period event that starts inside the domain and
    ends beyond it meets none of the three conditions and is kept by the
    filter. *)
Lemma visible_period_starting_in_view :
  let d : Domain := (0, 10) in
  let e := period "a" 5 20 in
  specVisible d e = false /\ In e (eventsInsideDomain [e] d).
Proof.
  split.
  - reflexivity.
  - simpl. left. reflexivity.
Qed.

(** C2, amended: an event whose end time, when present, is not zero is kept
    by the filter exactly when its start is in the domain (instant or
    period), or it is a period event whose end is in the domain, or it is a
    period event that spans across the domain. *)
Theorem eventsInsideDomain_iff
    (evs : list TimelineEvent) (d : Domain) (e : TimelineEvent) :
  (forall x, endTimeMillis e = Some x -> is_zero x = false) ->
  In e (eventsInsideDomain evs d) <->
  In e evs /\
  ((JS.geb (startTimeMillis e) (fst d) = true /\
    (startTimeMillis e <=? snd d) = true) \/
   (exists x, endTimeMillis e = Some x /\
              JS.geb x (fst d) = true /\ (x <=? snd d) = true) \/
   (exists x, endTimeMillis e = Some x /\
              (startTimeMillis e <? fst d) = true /\ JS.gtb x (snd d) = true)).
Proof.
  intros Hend. unfold eventsInsideDomain. rewrite filter_In.
  apply and_iff_compat_l.
  unfold insideDomain, isStartInView, isEndInView, isSpanningAcrossView.
  rewrite !orb_true_iff, andb_true_iff.
  destruct (endTimeMillis e) as [x | ] eqn:Hx.
  - assert (Ht : JS.truthy x = negb (is_nan x)).
    { unfold JS.truthy. rewrite (Hend x eq_refl). reflexivity. }
    rewrite Ht.
    destruct (is_nan x) eqn:Hn; simpl.
    + unfold JS.geb, JS.gtb.
      split.
      * intros [[H | H] | H]; try discriminate. left. exact H.
      * intros [H | [(y & Hy & H1 & H2) | (y & Hy & H1 & H2)]].
        -- left. left. exact H.
        -- injection Hy as <-.
           rewrite (JSFacts.leb_nan_l x _ Hn) in H2. discriminate.
        -- injection Hy as <-. unfold JS.gtb in H2.
           rewrite (JSFacts.ltb_nan_r _ x Hn) in H2. discriminate.
    + rewrite !andb_true_iff. split.
      * intros [[H | H] | H].
        -- left. exact H.
        -- right. left. exists x. tauto.
        -- right. right. exists x. tauto.
      * intros [H | [(y & Hy & H1 & H2) | (y & Hy & H1 & H2)]].
        -- left. left. exact H.
        -- injection Hy as <-. left. right. tauto.
        -- injection Hy as <-. right. tauto.
  - split.
    + intros [[H | H] | H]; try discriminate. left. exact H.
    + intros [H | [(y & Hy & _) | (y & Hy & _)]]; try discriminate.
      left. left. exact H.
Qed.

Lemma eventsInsideDomain_iff_witness :
  In (period "a" 5 20) (eventsInsideDomain [period "a" 5 20] (0, 10)).
Proof.
  apply (eventsInsideDomain_iff [period "a" 5 20] (0, 10) (period "a" 5 20)).
  - intros x H. injection H as <-. reflexivity.
  - split.
    + left. reflexivity.
    + left. split; reflexivity.
Defined.

(** ** calcMaxDomain *)

(** What [calcMaxDomain] does give for a single instant event whose time is
    truthy (neither zero nor [NaN]). *)
Lemma calcMaxDomain_single_truthy (id : string) (t : JS.number) :
  JS.truthy t = true -> calcMaxDomain [instant id t] = (t, t).
Proof.
  intros Ht. unfold calcMaxDomain.
  cbn [map instant startTimeMillis endTimeMillis].
  assert (Hn : is_nan t = false).
  { unfold JS.truthy in Ht. apply negb_true_iff in Ht.
    apply orb_false_iff in Ht. apply Ht. }
  rewrite (JSFacts.Math_min_single t Hn), (JSFacts.Math_max_single t Hn).
  unfold JS.or_else. rewrite Ht. reflexivity.
Qed.

(** C4, evaluated on the code: without events [Math.min()] is [+Infinity] and
    [Math.max()] is [-Infinity], both truthy, so [|| NaN] keeps them; a single
    instant event at time [0] gives [NaN] twice, because [0] is falsy. *)
Theorem calcMaxDomain_degenerate :
  calcMaxDomain [] = (infinity, neg_infinity) /\
  calcMaxDomain [instant "a" 0] = (nan, nan) /\
  calcMaxDomain [instant "a" 1000; period "b" 500 1500] = (500, 1500).
Proof.
  repeat split; reflexivity.
Qed.

(** ** Guard *)

(** C8, as stated, fails: with the pointer over a mark, a pan whose target
    lies strictly inside the maximal domain is rejected all the same, so
    [onPan] is not guarded by the bounds check alone. *)
Lemma onPan_checks_the_guard :
  let s := Demo.hovering in
  let target := pannedDomain Demo.props1 5 s in
  isMouseOverEvent s = true /\
  JS.gtb (fst target) (maxDomainStart Demo.props1) = true /\
  (snd target <? maxDomainEnd Demo.props1) = true /\
  onPan Demo.props1 5 s = s /\
  domain (onPan Demo.props1 5 s) <> target.
Proof.
  repeat split; try reflexivity.
  intros H. apply (f_equal (fun d => fst d =? 1000)) in H.
  vm_compute in H. discriminate.
Qed.

Section Guard.

Variable ZoomScale : Type.
Variable nextSmallerZoomScale : Domain -> ZoomScale.
Variable nextBiggerZoomScale : Domain -> ZoomScale.
Variable zoomScaleWidth : ZoomScale -> JS.number.
Variable scaleInvert : Domain -> JS.number * JS.number -> JS.number -> JS.number.
Variable p : Props.

(** C8, amended: while an animation is in flight or the pointer hovers a
    mark, zoom-in, zoom-out, custom zoom, reset and pan all leave the whole
    state unchanged; pan checks this guard before its bounds check. *)
Theorem guarded_handlers_noop
    (mouseX mouseStartX mouseEndX pixelDelta clock : JS.number)
    (s : ViewState) :
  isAnimationInProgress s = true \/ isMouseOverEvent s = true ->
  onZoomIn ZoomScale nextSmallerZoomScale zoomScaleWidth scaleInvert
           p mouseX clock s = s /\
  onZoomOut ZoomScale nextBiggerZoomScale zoomScaleWidth scaleInvert
            p mouseX clock s = s /\
  onZoomInCustom scaleInvert p mouseStartX mouseEndX clock s = s /\
  onZoomReset p clock s = s /\
  onPan p pixelDelta s = s.
Proof.
  intros Hbusy.
  assert (Hno : isDomainChangePossible s = false).
  { unfold isDomainChangePossible.
    destruct Hbusy as [H | H]; rewrite H; simpl.
    - reflexivity.
    - apply andb_false_r. }
  unfold onZoomIn, onZoomOut, updateDomain, onZoomInCustom, onZoomReset, onPan.
  rewrite Hno. repeat split; reflexivity.
Qed.

End Guard.

Lemma guarded_handlers_noop_witness :
  let s := Demo.zooming in
  onZoomIn Demo.ZoomScale Demo.nextSmallerZoomScale Demo.zoomScaleWidth
           Demo.scaleInvert Demo.props1 60 10 s = s /\
  onZoomOut Demo.ZoomScale Demo.nextBiggerZoomScale Demo.zoomScaleWidth
            Demo.scaleInvert Demo.props1 60 10 s = s /\
  onZoomInCustom Demo.scaleInvert Demo.props1 60 70 10 s = s /\
  onZoomReset Demo.props1 10 s = s /\
  onPan Demo.props1 5 s = s.
Proof.
  apply (guarded_handlers_noop Demo.ZoomScale Demo.nextSmallerZoomScale
           Demo.nextBiggerZoomScale Demo.zoomScaleWidth Demo.scaleInvert
           Demo.props1 60 60 70 5 10 Demo.zooming).
  left. reflexivity.
Defined.

(** ** Animation *)




(** C3, as stated, fails: a tween is started, a render schedules its frame,
    the event list is replaced (which cancels the tween and resets the domain
    to the new extent [(1000, 4000)]), and the frame then runs and puts the
    stale interpolated domain [(1000, 1875)] back. *)
Lemma stale_frame_overwrites_domain :
  animation Demo.superseded = none /\
  domain Demo.superseded = (1000, 4000) /\
  domain (animationFrame Demo.superseded) = (1000, 1875) /\
  ~ staleFrameDiscarded Demo.superseded.
Proof.
  repeat split; try reflexivity.
  intros H.
  specialize (H _ _ eq_refl).
  assert (Hneq : animation Demo.superseded
                 <> running (frameAnimation
                      (mkFrame (1000, 1875)
                               (mkTween 0 (1000, 2000) (1000, 1500))))).
  { change (animation Demo.superseded) with none. discriminate. }
  specialize (H Hneq).
  apply (f_equal (fun d => snd d =? 1875)) in H.
  vm_compute in H. discriminate.
Qed.

(** C3, amended: the oldest pending frame, when it runs, always sets the
    domain to the interpolated domain it was created with, whatever the
    animation state has become; it resets the animation to [none] when its
    interpolated domain equals the target of its own tween, and leaves the
    animation state as it is otherwise. *)
Theorem frame_always_applied (s : ViewState) (f : Frame) (rest : list Frame) :
  pendingFrames s = f :: rest ->
  domain (animationFrame s) = animatedDomain f /\
  pendingFrames (animationFrame s) = rest /\
  animation (animationFrame s) =
    (if JS.strict_eq (fst (animatedDomain f)) (fst (toDomain (frameAnimation f)))
        && JS.strict_eq (snd (animatedDomain f)) (snd (toDomain (frameAnimation f)))
     then none else animation s).
Proof.
  intros Hq. unfold animationFrame. rewrite Hq. unfold runFrame.
  destruct (JS.strict_eq (fst (animatedDomain f))
                         (fst (toDomain (frameAnimation f)))
            && JS.strict_eq (snd (animatedDomain f))
                            (snd (toDomain (frameAnimation f))));
    repeat split; reflexivity.
Qed.

Lemma frame_always_applied_witness :
  domain (animationFrame Demo.superseded) = (1000, 1875) /\
  animation (animationFrame Demo.superseded) = none.
Proof.
  destruct (frame_always_applied Demo.superseded
              (mkFrame (1000, 1875) (mkTween 0 (1000, 2000) (1000, 1500)))
              [mkFrame (1000, 1812.5) (mkTween 0 (1000, 2000) (1000, 1500))]
              eq_refl) as (Hd & _ & Ha).
  split; [exact Hd | exact Ha].
Defined.

(** ** Sorting engines *)

Module SortFacts.

Import Sort.

Lemma insertLinear_perm (c : Oracle) (x : nat) (l : list nat) :
  Permutation (insertLinear c x l) (x :: l).
Proof.
  induction l as [ | y l IH]; simpl.
  - apply Permutation_refl.
  - destruct (c y x); try apply Permutation_refl.
    apply perm_trans with (y :: x :: l).
    + apply perm_skip. exact IH.
    + apply perm_swap.
Qed.

Lemma insertBinary_perm (c : Oracle) (x : nat) (l : list nat) :
  Permutation (insertBinary c x l) (x :: l).
Proof.
  unfold insertBinary.
  set (k := bisect (List.length l) c x l 0 (List.length l)).
  apply Permutation_sym.
  rewrite <- (firstn_skipn k l) at 1.
  apply Permutation_middle.
Qed.

(** Inserting the positions one after the other permutes them, whatever the
    insertion procedure. *)
Lemma fold_insert_perm (ins : nat -> list nat -> list nat) :
  (forall x l, Permutation (ins x l) (x :: l)) ->
  forall xs acc,
    Permutation (fold_left (fun acc x => ins x acc) xs acc) (xs ++ acc).
Proof.
  intros Hins xs. induction xs as [ | x xs IH]; intros acc; simpl.
  - apply Permutation_refl.
  - apply perm_trans with (xs ++ ins x acc).
    + apply IH.
    + apply perm_trans with (xs ++ x :: acc).
      * apply Permutation_app_head. apply Hins.
      * apply Permutation_sym. apply Permutation_middle.
Qed.

Lemma linearRun_permutes : permutes linearRun.
Proof.
  intros n c. unfold linearRun.
  apply perm_trans with
    (fold_left (fun acc x => insertLinear c x acc) (seq 0 n) []).
  - apply Permutation_sym. apply Permutation_rev.
  - rewrite <- (app_nil_r (seq 0 n)) at 2.
    apply (fold_insert_perm (insertLinear c)). apply insertLinear_perm.
Qed.

Lemma binaryRun_permutes : permutes binaryRun.
Proof.
  intros n c. unfold binaryRun.
  rewrite <- (app_nil_r (seq 0 n)) at 2.
  apply (fold_insert_perm (insertBinary c)). apply insertBinary_perm.
Qed.

Lemma insertLinear_ext (c c' : Oracle) (x : nat) (l : list nat) :
  (forall y, In y l -> c y x = c' y x) ->
  insertLinear c x l = insertLinear c' x l.
Proof.
  induction l as [ | y l IH]; intros H; simpl.
  - reflexivity.
  - rewrite <- (H y (or_introl eq_refl)).
    destruct (c y x); try reflexivity.
    f_equal. apply IH. intros z Hz. apply H. right. exact Hz.
Qed.

Lemma bisect_ext (c c' : Oracle) (x : nat) (l : list nat) :
  (forall y, In y l -> c x y = c' x y) ->
  forall fuel left right,
    bisect fuel c x l left right = bisect fuel c' x l left right.
Proof.
  intros H fuel. induction fuel as [ | fuel IH]; intros left right;
    cbn [bisect].
  - reflexivity.
  - destruct (left <? right)%nat; [ | reflexivity].
    set (mid := (left + (right - left) / 2)%nat).
    destruct (nth_error l mid) as [y | ] eqn:Hy; [ | reflexivity].
    rewrite <- (H y (nth_error_In _ _ Hy)).
    destruct (c x y); apply IH.
Qed.

Lemma insertBinary_ext (c c' : Oracle) (x : nat) (l : list nat) :
  (forall y, In y l -> c x y = c' x y) ->
  insertBinary c x l = insertBinary c' x l.
Proof.
  intros H. unfold insertBinary. rewrite (bisect_ext c c' x l H). reflexivity.
Qed.

(** Two insertion procedures that agree below [n] build the same list from
    positions below [n]. *)
Lemma fold_insert_ext (n : nat) (ins ins' : nat -> list nat -> list nat) :
  (forall x l, Permutation (ins' x l) (x :: l)) ->
  (forall x l, (x < n)%nat -> Forall (fun y => (y < n)%nat) l ->
               ins x l = ins' x l) ->
  forall xs acc,
    Forall (fun y => (y < n)%nat) xs ->
    Forall (fun y => (y < n)%nat) acc ->
    fold_left (fun acc x => ins x acc) xs acc =
    fold_left (fun acc x => ins' x acc) xs acc.
Proof.
  intros Hperm Hagree xs.
  induction xs as [ | x xs IH]; intros acc Hxs Hacc; simpl.
  - reflexivity.
  - inversion Hxs as [ | ? ? Hx Hxs']; subst.
    rewrite (Hagree x acc Hx Hacc).
    apply IH; [exact Hxs' | ].
    apply (Permutation_Forall (Permutation_sym (Hperm x acc))).
    constructor; assumption.
Qed.

Lemma seq_below (n : nat) : Forall (fun y => (y < n)%nat) (seq 0 n).
Proof.
  apply Forall_forall. intros y Hy. apply in_seq in Hy. lia.
Qed.

Lemma linearRun_extensional : extensional linearRun.
Proof.
  intros n c c' H. unfold linearRun. f_equal.
  apply (fold_insert_ext n (insertLinear c) (insertLinear c')).
  - apply insertLinear_perm.
  - intros x l Hx Hl. apply insertLinear_ext.
    intros y Hy. apply H; [ | exact Hx].
    rewrite Forall_forall in Hl. apply Hl. exact Hy.
  - apply seq_below.
  - constructor.
Qed.

Lemma binaryRun_extensional : extensional binaryRun.
Proof.
  intros n c c' H. unfold binaryRun.
  apply (fold_insert_ext n (insertBinary c) (insertBinary c')).
  - apply insertBinary_perm.
  - intros x l Hx Hl. apply insertBinary_ext.
    intros y Hy. apply H; [exact Hx | ].
    rewrite Forall_forall in Hl. apply Hl. exact Hy.
  - apply seq_below.
  - constructor.
Qed.

Lemma linearRun_lawful : lawful linearRun.
Proof. split; [apply linearRun_permutes | apply linearRun_extensional]. Qed.

Lemma binaryRun_lawful : lawful binaryRun.
Proof. split; [apply binaryRun_permutes | apply binaryRun_extensional]. Qed.

(** Picking the elements of [l] at all its positions, in order, gives [l]. *)
Lemma pick_seq {A : Type} (pre l : list A) :
  pick (pre ++ l) (seq (List.length pre) (List.length l)) = l.
Proof.
  revert pre. induction l as [ | x l IH]; intros pre; simpl.
  - reflexivity.
  - rewrite nth_error_app2 by lia. rewrite Nat.sub_diag. simpl.
    f_equal.
    specialize (IH (pre ++ [x])).
    rewrite <- app_assoc in IH. simpl in IH.
    rewrite length_app in IH. simpl in IH.
    rewrite Nat.add_1_r in IH. exact IH.
Qed.

(** [sort] returns a permutation of the array, whatever the comparator. *)
Lemma array_sort_perm {A : Type}
    (E : Engine) (comparefn : A -> A -> JS.number) (l : list A) :
  permutes E -> Permutation (array_sort E comparefn l) l.
Proof.
  intros HE. unfold array_sort.
  apply perm_trans with (pick l (seq 0 (List.length l))).
  - unfold pick. apply Permutation_flat_map. apply HE.
  - pose proof (pick_seq [] l) as Hl. simpl in Hl. rewrite Hl.
    apply Permutation_refl.
Qed.

End SortFacts.

(** ** Draw order *)

Example linear_engine_keeps_short_first :
  map key (foregroundMarks Sort.linearRun [Demo.shortPeriod; Demo.longPeriod])
  = ["short"; "long"]%string.
Proof. reflexivity. Qed.

Example binary_engine_puts_short_first :
  map key (foregroundMarks Sort.binaryRun [Demo.longPeriod; Demo.shortPeriod])
  = ["short"; "long"]%string.
Proof. reflexivity. Qed.

Example linear_engine_keeps_instant_first :
  map key (foregroundMarks Sort.linearRun [instant "i" 5; Demo.longPeriod])
  = ["i"; "long"]%string.
Proof. reflexivity. Qed.

(** On two period events the comparator answers "first argument first" for
    both orders of the pair. *)
Lemma oracle_two_periods (a b : TimelineEvent) (i j : nat) :
  Sort.sign (sortByEventDuration a) = Lt ->
  Sort.sign (sortByEventDuration b) = Lt ->
  (i < 2)%nat -> (j < 2)%nat ->
  Sort.oracle sortComparefn [a; b] i j = Lt.
Proof.
  intros Ha Hb Hi Hj. unfold Sort.oracle, sortComparefn.
  destruct i as [ | [ | i]]; try lia;
    destruct j as [ | [ | j]]; try lia; simpl; assumption.
Qed.

(** C1, on the code: the function given to [sort] looks at its first argument
    only, so on the arrays [[short, long]] and [[long, short]] every engine
    gets the same answers and applies the same permutation: one of the two is
    drawn with the shorter period first, which is not descending duration. *)
Theorem foreground_order_not_by_duration (E : Sort.Engine) :
  Sort.lawful E ->
  (map markEvent (foregroundMarks E [Demo.shortPeriod; Demo.longPeriod])
   = [Demo.shortPeriod; Demo.longPeriod]
   \/
   map markEvent (foregroundMarks E [Demo.longPeriod; Demo.shortPeriod])
   = [Demo.shortPeriod; Demo.longPeriod])
  /\ ~ descendingByDuration [Demo.shortPeriod; Demo.longPeriod].
Proof.
  intros [Hperm Hext]. split.
  - unfold foregroundMarks, Sort.array_sort. simpl filter. simpl List.length.
    assert (Hsame :
      E 2%nat (Sort.oracle sortComparefn [Demo.shortPeriod; Demo.longPeriod])
      = E 2%nat (Sort.oracle sortComparefn [Demo.longPeriod; Demo.shortPeriod])).
    { apply Hext. intros i j Hi Hj.
      rewrite !oracle_two_periods by (assumption || reflexivity).
      reflexivity. }
    rewrite <- Hsame.
    pose proof (Hperm 2%nat
      (Sort.oracle sortComparefn [Demo.shortPeriod; Demo.longPeriod])) as HP.
    apply Permutation_sym in HP. simpl in HP.
    apply Permutation_length_2_inv in HP.
    destruct HP as [-> | ->]; [left | right]; reflexivity.
  - intros H.
    specialize (H 0%nat 1%nat Demo.shortPeriod Demo.longPeriod
                  (Nat.lt_0_succ 0) eq_refl eq_refl).
    vm_compute in H. discriminate.
Qed.

Lemma foreground_order_not_by_duration_witness :
  (map markEvent
     (foregroundMarks Sort.linearRun [Demo.shortPeriod; Demo.longPeriod])
   = [Demo.shortPeriod; Demo.longPeriod]
   \/
   map markEvent
     (foregroundMarks Sort.linearRun [Demo.longPeriod; Demo.shortPeriod])
   = [Demo.shortPeriod; Demo.longPeriod])
  /\ ~ descendingByDuration [Demo.shortPeriod; Demo.longPeriod].
Proof.
  exact (foreground_order_not_by_duration Sort.linearRun
           SortFacts.linearRun_lawful).
Defined.

Lemma map_markEvent (role : EventComponentRole) (l : list TimelineEvent) :
  map markEvent (map (interactiveEventMark role) l) = l.
Proof.
  rewrite map_map. simpl. apply map_id.
Qed.

(** C5: the children of [Marks] are the background and foreground marks
    followed by the selection marks; the selection marks are, up to order,
    the events whose [isSelected] is true; and the selection mark of a
    selected event is followed by selection marks only. *)
Theorem selection_pass_drawn_last (E : Sort.Engine) (evs : list TimelineEvent) :
  Sort.permutes E ->
  Marks E evs
  = (backgroundMarks evs ++ foregroundMarks E evs) ++ selectionMarks E evs
  /\ Permutation (map markEvent (selectionMarks E evs)) (filter isSelected evs)
  /\ (forall e, In e evs -> isSelected e = true ->
      exists sel1 sel2,
        selectionMarks E evs
        = sel1 ++ interactiveEventMark foreground e :: sel2 /\
        Marks E evs
        = (backgroundMarks evs ++ foregroundMarks E evs ++ sel1)
          ++ interactiveEventMark foreground e :: sel2).
Proof.
  intros HE. split; [ | split].
  - unfold Marks. apply app_assoc.
  - unfold selectionMarks. rewrite map_markEvent.
    apply SortFacts.array_sort_perm. exact HE.
  - intros e Hin Hsel.
    assert (Hs : In e (Sort.array_sort E sortComparefn (filter isSelected evs))).
    { apply (Permutation_in e
               (Permutation_sym
                  (SortFacts.array_sort_perm E sortComparefn
                     (filter isSelected evs) HE))).
      apply filter_In. split; assumption. }
    apply in_split in Hs. destruct Hs as (l1 & l2 & Hs).
    exists (map (interactiveEventMark foreground) l1),
           (map (interactiveEventMark foreground) l2).
    assert (Hsm : selectionMarks E evs
                  = map (interactiveEventMark foreground) l1
                    ++ interactiveEventMark foreground e
                       :: map (interactiveEventMark foreground) l2).
    { unfold selectionMarks. rewrite Hs, map_app. reflexivity. }
    split; [exact Hsm | ].
    unfold Marks. rewrite Hsm. rewrite <- !app_assoc. reflexivity.
Qed.

Lemma selection_pass_drawn_last_witness :
  Permutation
    (map markEvent
       (selectionMarks Sort.binaryRun [Demo.longPeriod; Demo.selectedInstant]))
    [Demo.selectedInstant].
Proof.
  exact (proj1 (proj2 (selection_pass_drawn_last Sort.binaryRun
                         [Demo.longPeriod; Demo.selectedInstant]
                         SortFacts.binaryRun_permutes))).
Defined.

(** ** Tooltips *)

(** C9, as stated, fails for period events: the tooltip of a period event is
    drawn at the local abscissa 0 of the host, so on screen its tip is where
    the pointer is, and moves with it. *)
Lemma period_tooltip_follows_pointer :
  let shown xOffset :=
    option_map (fun g => screenX xOffset (tipX g))
      (interactiveEventTooltip Demo.scaleApply (1000, 2000) (50, 100) 40
         Demo.labelledPeriod xOffset 0) in
  shown 60 = Some 60 /\ shown 90 = Some 90 /\ shown 60 <> shown 90.
Proof.
  repeat split; try reflexivity.
  intros H.
  apply (f_equal (fun o => match o with
                           | Some x => x =? 60
                           | None => false
                           end)) in H.
  vm_compute in H. discriminate.
Qed.

Section TooltipProperties.

Variable scaleApply : Domain -> JS.number * JS.number -> JS.number -> JS.number.

(** C9, amended: for an event that carries a tooltip, drawn by a host that
    calls back with [(xOffset, yOffset)]: when the event has a (truthy) end
    time the box is 180 wide and the tip is at the local abscissa 0 of the
    host, whatever the event's position and the offset, so it follows the
    pointer; when the event has no end time the box is 100 wide and the tip
    is at the event's own screen x minus [xOffset].  In both cases the box
    starts at the tip minus the clamping offset. *)
Theorem tooltip_geometry
    (timeDomain : Domain) (timeRange : JS.number * JS.number)
    (y xOffset yOffset : JS.number) (e : TimelineEvent) (text : string) :
  tooltip e = Some text ->
  JS.truthy_string text = true ->
  exists g,
    interactiveEventTooltip scaleApply timeDomain timeRange y e xOffset yOffset
    = Some g /\
    boxX g = tipX g - scaleApply (0, snd timeRange) (15, boxWidth g - 15) xOffset
    /\ (endTruthy e = true -> boxWidth g = 180 /\ tipX g = 0)
    /\ (endTimeMillis e = None ->
        boxWidth g = 100 /\
        tipX g = scaleApply timeDomain timeRange (startTimeMillis e) - xOffset).
Proof.
  intros Ht Htext. unfold interactiveEventTooltip. rewrite Ht, Htext.
  eexists. split; [reflexivity | ].
  unfold EventTooltip, eventTooltipType. simpl.
  split; [reflexivity | ]. split.
  - intros Hend. rewrite Hend. split; reflexivity.
  - intros Hnone. unfold endTruthy. rewrite Hnone. split; reflexivity.
Qed.

End TooltipProperties.

Lemma tooltip_geometry_witness :
  exists g,
    interactiveEventTooltip Demo.scaleApply (1000, 2000) (50, 100) 40
      Demo.labelledInstant 60 0 = Some g /\
    boxX g = tipX g - Demo.scaleApply (0, 100) (15, boxWidth g - 15) 60
    /\ (endTruthy Demo.labelledInstant = true -> boxWidth g = 180 /\ tipX g = 0)
    /\ (endTimeMillis Demo.labelledInstant = None ->
        boxWidth g = 100 /\
        tipX g = Demo.scaleApply (1000, 2000) (50, 100) 1500 - 60).
Proof.
  apply (tooltip_geometry Demo.scaleApply (1000, 2000) (50, 100) 40 60 0
           Demo.labelledInstant "call"); reflexivity.
Defined.

(** * Further properties *)

(** ** The order of numbers *)

Module FloatOrderFacts.

Import FloatOrder.

Lemma lexlt_dec (a b : Z * Z * Z) : {lexlt a b} + {~ lexlt a b}.
Proof.
  destruct a as [[a1 a2] a3], b as [[b1 b2] b3]. unfold lexlt.
  destruct (Z_lt_dec a1 b1); [left; lia | ].
  destruct (Z.eq_dec a1 b1); [ | right; lia].
  destruct (Z_lt_dec a2 b2); [left; lia | ].
  destruct (Z.eq_dec a2 b2); [ | right; lia].
  destruct (Z_lt_dec a3 b3); [left; lia | right; lia].
Qed.

Ltac by_cases_on_class :=
  try (split; [discriminate | intros (H1 & H2 & H3); try congruence; lia]);
  try (split; [intros _; repeat split; try discriminate; lia | reflexivity]).

Lemma SFltb_key (x y : spec_float) :
  SFltb x y = true <->
  x <> S754_nan /\ y <> S754_nan /\ lexlt (key x) (key y).
Proof.
  unfold SFltb.
  destruct x as [sx | sx | | sx mx ex], y as [sy | sy | | sy my ey];
    try destruct sx; try destruct sy; simpl; by_cases_on_class.
  all: change (Pos.compare_cont Eq mx my) with (Pos.compare mx my).
  all: destruct (Z.compare_spec ex ey); destruct (Pos.compare_spec mx my);
    simpl; by_cases_on_class.
Qed.

Lemma SFleb_key (x y : spec_float) :
  SFleb x y = true <->
  x <> S754_nan /\ y <> S754_nan /\ lexle (key x) (key y).
Proof.
  unfold SFleb.
  destruct x as [sx | sx | | sx mx ex], y as [sy | sy | | sy my ey];
    try destruct sx; try destruct sy; simpl; by_cases_on_class.
  all: change (Pos.compare_cont Eq mx my) with (Pos.compare mx my).
  all: destruct (Z.compare_spec ex ey); destruct (Pos.compare_spec mx my);
    simpl; by_cases_on_class.
Qed.

Lemma is_nan_iff (x : float) : is_nan x = false <-> Prim2SF x <> S754_nan.
Proof.
  split.
  - apply JSFacts.not_nan_spec.
  - intros H. destruct (is_nan x) eqn:Hn; [ | reflexivity].
    elim H. apply JSFacts.is_nan_spec. exact Hn.
Qed.

Lemma ltb_iff (x y : float) :
  (x <? y) = true <->
  is_nan x = false /\ is_nan y = false /\ lexlt (k x) (k y).
Proof.
  rewrite FloatAxioms.ltb_spec, SFltb_key, !is_nan_iff. reflexivity.
Qed.

Lemma leb_iff (x y : float) :
  (x <=? y) = true <->
  is_nan x = false /\ is_nan y = false /\ lexle (k x) (k y).
Proof.
  rewrite FloatAxioms.leb_spec, SFleb_key, !is_nan_iff. reflexivity.
Qed.

Ltac keys :=
  unfold lexlt, lexle in *;
  repeat match goal with
         | |- context [k ?x] =>
             let a := fresh "a" in
             let b := fresh "b" in
             let c := fresh "c" in
             destruct (k x) as [[a b] c]
         | H : context [k ?x] |- _ =>
             let a := fresh "a" in
             let b := fresh "b" in
             let c := fresh "c" in
             destruct (k x) as [[a b] c]
         end.

Lemma leb_refl (x : float) : is_nan x = false -> (x <=? x) = true.
Proof. intros H. apply leb_iff. repeat split; try assumption. keys. lia. Qed.

Lemma leb_ordered (x y : float) :
  (x <=? y) = true -> is_nan x = false /\ is_nan y = false.
Proof. intros H. apply leb_iff in H. tauto. Qed.

Lemma ltb_ordered (x y : float) :
  (x <? y) = true -> is_nan x = false /\ is_nan y = false.
Proof. intros H. apply ltb_iff in H. tauto. Qed.

Lemma ltb_leb (x y : float) : (x <? y) = true -> (x <=? y) = true.
Proof.
  intros H. apply ltb_iff in H. apply leb_iff.
  destruct H as (Hx & Hy & H). repeat split; try assumption. keys. lia.
Qed.

Lemma leb_trans (x y z : float) :
  (x <=? y) = true -> (y <=? z) = true -> (x <=? z) = true.
Proof.
  intros H1 H2. apply leb_iff in H1, H2. apply leb_iff.
  destruct H1 as (Hx & Hy & H1), H2 as (_ & Hz & H2).
  repeat split; try assumption. keys. lia.
Qed.

Lemma ltb_leb_trans (x y z : float) :
  (x <? y) = true -> (y <=? z) = true -> (x <? z) = true.
Proof.
  intros H1 H2. apply ltb_iff in H1. apply leb_iff in H2. apply ltb_iff.
  destruct H1 as (Hx & Hy & H1), H2 as (_ & Hz & H2).
  repeat split; try assumption. keys. lia.
Qed.

Lemma leb_ltb_trans (x y z : float) :
  (x <=? y) = true -> (y <? z) = true -> (x <? z) = true.
Proof.
  intros H1 H2. apply leb_iff in H1. apply ltb_iff in H2. apply ltb_iff.
  destruct H1 as (Hx & Hy & H1), H2 as (_ & Hz & H2).
  repeat split; try assumption. keys. lia.
Qed.

Lemma ltb_irrefl (x : float) : (x <? x) = false.
Proof.
  destruct (x <? x) eqn:H; [ | reflexivity].
  apply ltb_iff in H. destruct H as (_ & _ & H). keys. lia.
Qed.

Lemma ltb_not_leb (x y : float) : (x <? y) = true -> (y <=? x) = false.
Proof.
  intros H. destruct (y <=? x) eqn:H'; [ | reflexivity].
  apply ltb_iff in H. apply leb_iff in H'.
  destruct H as (_ & _ & H), H' as (_ & _ & H'). keys. lia.
Qed.

Lemma not_ltb_leb (x y : float) :
  is_nan x = false -> is_nan y = false ->
  (x <? y) = false -> (y <=? x) = true.
Proof.
  intros Hx Hy H. apply leb_iff. repeat split; try assumption.
  destruct (lexlt_dec (k x) (k y)) as [Hlt | Hge].
  - assert (Ht : (x <? y) = true) by (apply ltb_iff; tauto). congruence.
  - keys. unfold lexlt in Hge. lia.
Qed.

(** Both zeros have the same rank. *)
Lemma zero_key (x : float) :
  JS.is_pos_zero x = true \/ JS.is_neg_zero x = true ->
  is_nan x = false /\ k x = (0, 0, 0)%Z.
Proof.
  unfold JS.is_pos_zero, JS.is_neg_zero, k.
  rewrite is_nan_iff, classify_spec. unfold SF64classify, SFclassify.
  destruct (Prim2SF x) as [s | s | | s m e]; simpl.
  - intros _. split; [discriminate | reflexivity].
  - destruct s; intros [H | H]; discriminate.
  - intros [H | H]; discriminate.
  - destruct s;
      match goal with
      | |- context [if ?c then _ else _] => destruct c
      end; intros [H | H]; discriminate.
Qed.

Lemma zeros_leb (x y : float) :
  JS.is_pos_zero x = true \/ JS.is_neg_zero x = true ->
  JS.is_pos_zero y = true \/ JS.is_neg_zero y = true ->
  (x <=? y) = true.
Proof.
  intros Hx Hy. apply zero_key in Hx, Hy.
  destruct Hx as [Hx Kx], Hy as [Hy Ky].
  apply leb_iff. repeat split; try assumption.
  rewrite Kx, Ky. unfold lexle. lia.
Qed.

End FloatOrderFacts.

(** ** Math.min and Math.max over a list *)

Module MathFacts.

Import FloatOrderFacts.

Lemma existsb_is_nan (l : list JS.number) :
  existsb is_nan l = false <-> Forall (fun x => is_nan x = false) l.
Proof.
  induction l as [ | x l IH]; simpl.
  - split; [constructor | reflexivity].
  - rewrite orb_false_iff, IH. split.
    + intros [Hx Hl]. constructor; assumption.
    + intros H. inversion H; subst. split; assumption.
Qed.

Lemma min_step_spec (lowest x : JS.number) :
  is_nan lowest = false -> is_nan x = false ->
  (JS.min_step lowest x = lowest \/ JS.min_step lowest x = x) /\
  (JS.min_step lowest x <=? lowest) = true /\
  (JS.min_step lowest x <=? x) = true.
Proof.
  intros Hl Hx. unfold JS.min_step.
  destruct (JS.is_neg_zero x && JS.is_pos_zero lowest) eqn:Hz.
  - apply andb_true_iff in Hz. destruct Hz as [Hzx Hzl].
    repeat split; [right; reflexivity | | apply leb_refl; exact Hx].
    apply zeros_leb; [right | left]; assumption.
  - destruct (x <? lowest) eqn:Hlt.
    + repeat split; [right; reflexivity | | apply leb_refl; exact Hx].
      apply ltb_leb. exact Hlt.
    + repeat split; [left; reflexivity | apply leb_refl; exact Hl | ].
      apply not_ltb_leb; assumption.
Qed.

Lemma max_step_spec (highest x : JS.number) :
  is_nan highest = false -> is_nan x = false ->
  (JS.max_step highest x = highest \/ JS.max_step highest x = x) /\
  (highest <=? JS.max_step highest x) = true /\
  (x <=? JS.max_step highest x) = true.
Proof.
  intros Hh Hx. unfold JS.max_step, JS.gtb.
  destruct (JS.is_pos_zero x && JS.is_neg_zero highest) eqn:Hz.
  - apply andb_true_iff in Hz. destruct Hz as [Hzx Hzh].
    repeat split; [right; reflexivity | | apply leb_refl; exact Hx].
    apply zeros_leb; [right | left]; assumption.
  - destruct (highest <? x) eqn:Hlt.
    + repeat split; [right; reflexivity | | apply leb_refl; exact Hx].
      apply ltb_leb. exact Hlt.
    + repeat split; [left; reflexivity | apply leb_refl; exact Hh | ].
      apply not_ltb_leb; assumption.
Qed.

Lemma fold_min_spec (l : list JS.number) :
  Forall (fun x => is_nan x = false) l ->
  forall acc, is_nan acc = false ->
    (fold_left JS.min_step l acc = acc \/ In (fold_left JS.min_step l acc) l) /\
    (fold_left JS.min_step l acc <=? acc) = true /\
    (forall x, In x l -> (fold_left JS.min_step l acc <=? x) = true).
Proof.
  induction 1 as [ | x l Hx Hl IH]; intros acc Hacc; simpl.
  - repeat split; [left; reflexivity | apply leb_refl; exact Hacc | ].
    intros x [].
  - destruct (min_step_spec acc x Hacc Hx) as (Hin & Hle_acc & Hle_x).
    assert (Hn : is_nan (JS.min_step acc x) = false).
    { destruct Hin as [-> | ->]; assumption. }
    destruct (IH _ Hn) as (Hin' & Hle' & Hall).
    repeat split.
    + destruct Hin' as [E | Hi]; [ | right; right; exact Hi].
      rewrite E. destruct Hin as [-> | ->]; [left | right; left]; reflexivity.
    + apply (leb_trans _ _ _ Hle' Hle_acc).
    + intros y [<- | Hy]; [apply (leb_trans _ _ _ Hle' Hle_x) | apply Hall, Hy].
Qed.

Lemma fold_max_spec (l : list JS.number) :
  Forall (fun x => is_nan x = false) l ->
  forall acc, is_nan acc = false ->
    (fold_left JS.max_step l acc = acc \/ In (fold_left JS.max_step l acc) l) /\
    (acc <=? fold_left JS.max_step l acc) = true /\
    (forall x, In x l -> (x <=? fold_left JS.max_step l acc) = true).
Proof.
  induction 1 as [ | x l Hx Hl IH]; intros acc Hacc; simpl.
  - repeat split; [left; reflexivity | apply leb_refl; exact Hacc | ].
    intros x [].
  - destruct (max_step_spec acc x Hacc Hx) as (Hin & Hle_acc & Hle_x).
    assert (Hn : is_nan (JS.max_step acc x) = false).
    { destruct Hin as [-> | ->]; assumption. }
    destruct (IH _ Hn) as (Hin' & Hle' & Hall).
    repeat split.
    + destruct Hin' as [E | Hi]; [ | right; right; exact Hi].
      rewrite E. destruct Hin as [-> | ->]; [left | right; left]; reflexivity.
    + apply (leb_trans _ _ _ Hle_acc Hle').
    + intros y [<- | Hy]; [apply (leb_trans _ _ _ Hle_x Hle') | apply Hall, Hy].
Qed.

(** [Math.min] of numbers, when it is not [NaN], is below every argument and
    is one of them. *)
Lemma Math_min_spec (l : list JS.number) :
  is_nan (JS.Math_min l) = false ->
  (forall x, In x l -> (JS.Math_min l <=? x) = true) /\
  (l <> [] -> In (JS.Math_min l) l).
Proof.
  unfold JS.Math_min. destruct (existsb is_nan l) eqn:He; [discriminate | ].
  intros _. apply existsb_is_nan in He.
  destruct (fold_min_spec l He infinity eq_refl) as (Hin & _ & Hall).
  split; [exact Hall | ].
  intros Hne. destruct Hin as [E | Hi]; [ | exact Hi].
  destruct l as [ | x l]; [congruence | ].
  pose proof (Hall x (or_introl eq_refl)) as Hx. rewrite E in *.
  left. apply JSFacts.not_below_infinity.
  - apply (leb_ordered _ _ Hx).
  - apply JSFacts.leb_not_ltb. exact Hx.
Qed.

Lemma Math_max_spec (l : list JS.number) :
  is_nan (JS.Math_max l) = false ->
  (forall x, In x l -> (x <=? JS.Math_max l) = true) /\
  (l <> [] -> In (JS.Math_max l) l).
Proof.
  unfold JS.Math_max. destruct (existsb is_nan l) eqn:He; [discriminate | ].
  intros _. apply existsb_is_nan in He.
  destruct (fold_max_spec l He neg_infinity eq_refl) as (Hin & _ & Hall).
  split; [exact Hall | ].
  intros Hne. destruct Hin as [E | Hi]; [ | exact Hi].
  destruct l as [ | x l]; [congruence | ].
  pose proof (Hall x (or_introl eq_refl)) as Hx. rewrite E in *.
  left. apply JSFacts.not_above_neg_infinity.
  - apply (leb_ordered _ _ Hx).
  - apply JSFacts.leb_not_ltb. exact Hx.
Qed.

(** [a || NaN] is not [NaN] only when it is [a]. *)
Lemma or_else_nan (a : JS.number) :
  is_nan (JS.or_else a nan) = false ->
  JS.or_else a nan = a /\ is_nan a = false /\ is_zero a = false.
Proof.
  unfold JS.or_else, JS.truthy.
  destruct (is_zero a) eqn:Hz, (is_nan a) eqn:Hn; simpl;
    try discriminate.
  intros _. repeat split; reflexivity.
Qed.

Lemma filter_all {A : Type} (f : A -> bool) (l : list A) :
  (forall x, In x l -> f x = true) -> filter f l = l.
Proof.
  induction l as [ | x l IH]; intros H; simpl.
  - reflexivity.
  - rewrite (H x (or_introl eq_refl)). f_equal.
    apply IH. intros y Hy. apply H. right. exact Hy.
Qed.

Lemma filter_none {A : Type} (f : A -> bool) (l : list A) :
  (forall x, In x l -> f x = false) -> filter f l = [].
Proof.
  induction l as [ | x l IH]; intros H; simpl.
  - reflexivity.
  - rewrite (H x (or_introl eq_refl)).
    apply IH. intros y Hy. apply H. right. exact Hy.
Qed.

End MathFacts.

(** ** The maximal domain *)

Lemma calcMaxDomain_unfold (evs : list TimelineEvent) :
  calcMaxDomain evs =
  (JS.or_else (JS.Math_min (map startTimeMillis evs)) nan,
   JS.or_else (JS.Math_max (map endOrStart evs)) nan).
Proof. reflexivity. Qed.

(** X1: when neither endpoint of the maximal domain is [NaN], its start is
    below the start of every event and its end is above the end (or, for an
    instant event, the start) of every event, and for a non-empty event list
    both endpoints are times of events. *)
Theorem calcMaxDomain_encloses (evs : list TimelineEvent) :
  is_nan (fst (calcMaxDomain evs)) = false ->
  is_nan (snd (calcMaxDomain evs)) = false ->
  (forall e, In e evs ->
     (fst (calcMaxDomain evs) <=? startTimeMillis e) = true /\
     (endOrStart e <=? snd (calcMaxDomain evs)) = true) /\
  (evs <> [] ->
     (exists e, In e evs /\ startTimeMillis e = fst (calcMaxDomain evs)) /\
     (exists e, In e evs /\ endOrStart e = snd (calcMaxDomain evs))).
Proof.
  rewrite calcMaxDomain_unfold. simpl fst. simpl snd. intros H0 H1.
  destruct (MathFacts.or_else_nan _ H0) as (E0 & N0 & _).
  destruct (MathFacts.or_else_nan _ H1) as (E1 & N1 & _).
  rewrite E0, E1.
  destruct (MathFacts.Math_min_spec _ N0) as (Hmin & Hmin_in).
  destruct (MathFacts.Math_max_spec _ N1) as (Hmax & Hmax_in).
  split.
  - intros e He. split.
    + apply Hmin. apply in_map. exact He.
    + apply Hmax. apply (in_map endOrStart). exact He.
  - intros Hne. split.
    + assert (Hm : map startTimeMillis evs <> []).
      { destruct evs; [congruence | discriminate]. }
      apply Hmin_in in Hm. apply in_map_iff in Hm.
      destruct Hm as (e & Ee & He). exists e. split; assumption.
    + assert (Hm : map endOrStart evs <> []).
      { destruct evs; [congruence | discriminate]. }
      apply Hmax_in in Hm. apply in_map_iff in Hm.
      destruct Hm as (e & Ee & He). exists e. split; assumption.
Qed.

Lemma calcMaxDomain_encloses_witness :
  (500 <=? startTimeMillis (instant "a" 1000)) = true /\
  (endOrStart (instant "a" 1000) <=? 1500) = true.
Proof.
  exact (proj1 (calcMaxDomain_encloses
                  [instant "a" 1000; period "b" 500 1500] eq_refl eq_refl)
               (instant "a" 1000) (or_introl eq_refl)).
Defined.

(** X2: when neither endpoint of the maximal domain is [NaN] and no period
    event ends before it starts, every event is inside the maximal domain:
    the filter keeps the whole list. *)
Theorem all_events_inside_max_domain (evs : list TimelineEvent) :
  is_nan (fst (calcMaxDomain evs)) = false ->
  is_nan (snd (calcMaxDomain evs)) = false ->
  (forall e x, In e evs -> endTimeMillis e = Some x ->
               (startTimeMillis e <=? x) = true) ->
  eventsInsideDomain evs (calcMaxDomain evs) = evs.
Proof.
  intros H0 H1 Hwf.
  destruct (calcMaxDomain_encloses evs H0 H1) as [Hall _].
  unfold eventsInsideDomain. apply MathFacts.filter_all.
  intros e He. destruct (Hall e He) as [Hlo Hhi].
  assert (Hs : isStartInView (calcMaxDomain evs) e = true).
  { unfold isStartInView, JS.geb. apply andb_true_iff. split; [exact Hlo | ].
    unfold endOrStart in Hhi.
    destruct (endTimeMillis e) as [x | ] eqn:Hx; [ | exact Hhi].
    apply (FloatOrderFacts.leb_trans _ x _); [ | exact Hhi].
    apply (Hwf e x He Hx). }
  unfold insideDomain. rewrite Hs. reflexivity.
Qed.

Lemma all_events_inside_max_domain_witness :
  eventsInsideDomain [instant "a" 1000; period "b" 500 1500]
    (calcMaxDomain [instant "a" 1000; period "b" 500 1500])
  = [instant "a" 1000; period "b" 500 1500].
Proof.
  apply all_events_inside_max_domain; try reflexivity.
  intros e x [<- | [<- | []]] Hx; [discriminate | ].
  injection Hx as <-. reflexivity.
Defined.

(** X3: when the earliest start or the latest end of the events is zero (a
    falsy number), the maximal domain has a [NaN] endpoint and the filter
    keeps no event for it. *)
Theorem zero_extent_hides_all (evs : list TimelineEvent) :
  is_zero (JS.Math_min (map startTimeMillis evs)) = true \/
  is_zero (JS.Math_max (map endOrStart evs)) = true ->
  eventsInsideDomain evs (calcMaxDomain evs) = [].
Proof.
  intros Hz. unfold eventsInsideDomain. apply MathFacts.filter_none.
  intros e _. apply insideDomain_nan.
  rewrite calcMaxDomain_unfold. simpl fst. simpl snd.
  unfold JS.or_else, JS.truthy.
  destruct Hz as [H | H]; rewrite H; simpl; [left | right]; reflexivity.
Qed.

Lemma zero_extent_hides_all_witness :
  eventsInsideDomain [instant "a" 0; period "b" 500 1500]
    (calcMaxDomain [instant "a" 0; period "b" 500 1500]) = [].
Proof.
  apply zero_extent_hides_all. left. reflexivity.
Defined.

(** ** Events outside the domain *)

(** X4: for a domain with [d0 <= d1], an event that does not end before it
    starts is dropped by the filter when it lies entirely before [d0] (its
    end, or its start for an instant event, is below [d0]) or entirely after
    [d1] (its start is above [d1]). *)
Theorem events_outside_domain_excluded (d : Domain) (e : TimelineEvent) :
  (fst d <=? snd d) = true ->
  (forall x, endTimeMillis e = Some x -> (startTimeMillis e <=? x) = true) ->
  (endOrStart e <? fst d) = true \/ (snd d <? startTimeMillis e) = true ->
  insideDomain d e = false.
Proof.
  intros Hd Hwf Hout.
  unfold insideDomain, isStartInView, isEndInView, isSpanningAcrossView,
    JS.geb, JS.gtb, endOrStart in *.
  destruct (endTimeMillis e) as [x | ] eqn:Hx.
  - specialize (Hwf x eq_refl). destruct Hout as [Hb | Ha].
    + pose proof (FloatOrderFacts.leb_ltb_trans _ _ _ Hwf Hb) as Hs.
      rewrite (FloatOrderFacts.ltb_not_leb _ _ Hs).
      rewrite (FloatOrderFacts.ltb_not_leb _ _ Hb).
      pose proof (FloatOrderFacts.ltb_leb_trans _ _ _ Hb Hd) as Hx1.
      rewrite (JSFacts.leb_not_ltb _ _ (FloatOrderFacts.ltb_leb _ _ Hx1)).
      rewrite !andb_false_r. reflexivity.
    + rewrite (FloatOrderFacts.ltb_not_leb _ _ Ha).
      pose proof (FloatOrderFacts.ltb_leb_trans _ _ _ Ha Hwf) as Hx1.
      rewrite (FloatOrderFacts.ltb_not_leb _ _ Hx1).
      pose proof (FloatOrderFacts.leb_ltb_trans _ _ _ Hd Ha) as Hs.
      rewrite (JSFacts.leb_not_ltb _ _ (FloatOrderFacts.ltb_leb _ _ Hs)).
      rewrite !andb_false_r. reflexivity.
  - destruct Hout as [Hb | Ha].
    + rewrite (FloatOrderFacts.ltb_not_leb _ _ Hb). reflexivity.
    + rewrite (FloatOrderFacts.ltb_not_leb _ _ Ha).
      rewrite andb_false_r. reflexivity.
Qed.

Lemma events_outside_domain_excluded_witness :
  insideDomain (1000, 2000) (period "early" 100 900) = false.
Proof.
  apply events_outside_domain_excluded.
  - reflexivity.
  - intros x H. injection H as <-. reflexivity.
  - left. reflexivity.
Defined.

(** ** Zoom *)

Section Zoom.

Variable ZoomScale : Type.
Variable nextSmallerZoomScale : Domain -> ZoomScale.
Variable nextBiggerZoomScale : Domain -> ZoomScale.
Variable zoomScaleWidth : ZoomScale -> JS.number.
Variable scaleInvert : Domain -> JS.number * JS.number -> JS.number -> JS.number.
Variable p : Props.

Lemma getDomainSpan_clamped (time w : JS.number) :
  (is_nan (fst (getDomainSpan p time w)) = false ->
   (maxDomainStart p <=? fst (getDomainSpan p time w)) = true) /\
  (is_nan (snd (getDomainSpan p time w)) = false ->
   (snd (getDomainSpan p time w) <=? maxDomainEnd p) = true).
Proof.
  unfold getDomainSpan. simpl fst. simpl snd. split; intros Hn.
  - apply (proj1 (MathFacts.Math_max_spec _ Hn)). left. reflexivity.
  - apply (proj1 (MathFacts.Math_min_spec _ Hn)). left. reflexivity.
Qed.

(** X5: when a change is allowed, zoom-in and zoom-out start a tween from
    the current domain whose target is clamped to the maximal domain: a
    target start that is not [NaN] is at or above [maxDomainStart] and a
    target end that is not [NaN] is at or below [maxDomainEnd]. *)
Theorem zoom_target_clamped (mouseX clock : JS.number) (s : ViewState) :
  isDomainChangePossible s = true ->
  forall s',
    s' = onZoomIn ZoomScale nextSmallerZoomScale zoomScaleWidth scaleInvert
                  p mouseX clock s \/
    s' = onZoomOut ZoomScale nextBiggerZoomScale zoomScaleWidth scaleInvert
                   p mouseX clock s ->
    exists target,
      animation s' = running (mkTween clock (domain s) target) /\
      (is_nan (fst target) = false ->
       (maxDomainStart p <=? fst target) = true) /\
      (is_nan (snd target) = false ->
       (snd target <=? maxDomainEnd p) = true).
Proof.
  intros Hok s' Hs'.
  unfold onZoomIn, onZoomOut, updateDomain in Hs'. rewrite Hok in Hs'.
  destruct Hs' as [-> | ->]; eexists; (split; [reflexivity | ]);
    apply getDomainSpan_clamped.
Qed.

(** X6: the four zoom handlers never write the domain themselves, nor the
    hover flag nor the queue of frames: whether they are allowed or not, only
    the animation cell can differ afterwards. *)
Theorem zoom_handlers_keep_domain
    (mouseX mouseStartX mouseEndX clock : JS.number) (s : ViewState) :
  let kept (s' : ViewState) :=
    domain s' = domain s /\
    isMouseOverEvent s' = isMouseOverEvent s /\
    pendingFrames s' = pendingFrames s /\
    extentDeps s' = extentDeps s in
  kept (onZoomIn ZoomScale nextSmallerZoomScale zoomScaleWidth scaleInvert
                 p mouseX clock s) /\
  kept (onZoomOut ZoomScale nextBiggerZoomScale zoomScaleWidth scaleInvert
                  p mouseX clock s) /\
  kept (onZoomInCustom scaleInvert p mouseStartX mouseEndX clock s) /\
  kept (onZoomReset p clock s).
Proof.
  unfold onZoomIn, onZoomOut, updateDomain, onZoomInCustom, onZoomReset.
  destruct (isDomainChangePossible s); repeat split; reflexivity.
Qed.

(** X7: the previews agree with the zooms they announce.  The range reported
    while hovering is the target of the tween zoom-in starts from the same
    pointer position, and the range reported during a drag is the target of
    the tween the custom zoom starts; the drag preview is silent when a change
    is not allowed, the hover preview is not. *)
Theorem previews_match_zoom_targets
    (mouseX mouseStartX mouseEndX clock : JS.number) (s : ViewState) :
  (isDomainChangePossible s = true ->
   (exists t lo hi,
      onZoomScrub ZoomScale nextSmallerZoomScale zoomScaleWidth scaleInvert
                  p true mouseX s = Some (t, lo, hi) /\
      animation (onZoomIn ZoomScale nextSmallerZoomScale zoomScaleWidth
                          scaleInvert p mouseX clock s)
      = running (mkTween clock (domain s) (lo, hi))) /\
   (exists lo hi,
      onZoomInCustomInProgress scaleInvert p true mouseStartX mouseEndX s
      = Some (hi, lo, hi) /\
      animation (onZoomInCustom scaleInvert p mouseStartX mouseEndX clock s)
      = running (mkTween clock (domain s) (lo, hi)))) /\
  (isDomainChangePossible s = false ->
   onZoomInCustomInProgress scaleInvert p true mouseStartX mouseEndX s = None /\
   onZoomScrub ZoomScale nextSmallerZoomScale zoomScaleWidth scaleInvert
               p true mouseX s <> None).
Proof.
  unfold onZoomScrub, onZoomIn, updateDomain, onZoomInCustomInProgress,
    onZoomInCustom.
  split; intros Hok; rewrite Hok; simpl.
  - split.
    + eexists _, _, _. split; reflexivity.
    + eexists _, _. split; reflexivity.
  - split; [reflexivity | discriminate].
Qed.

End Zoom.

Lemma zoom_target_clamped_witness :
  exists target,
    animation (onZoomIn Demo.ZoomScale Demo.nextSmallerZoomScale
                 Demo.zoomScaleWidth Demo.scaleInvert Demo.props1 75 0
                 (mount Demo.props1))
    = running (mkTween 0 (1000, 2000) target) /\
    (is_nan (fst target) = false ->
     (maxDomainStart Demo.props1 <=? fst target) = true) /\
    (is_nan (snd target) = false ->
     (snd target <=? maxDomainEnd Demo.props1) = true).
Proof.
  apply (zoom_target_clamped Demo.ZoomScale Demo.nextSmallerZoomScale
           Demo.nextBiggerZoomScale Demo.zoomScaleWidth Demo.scaleInvert
           Demo.props1 75 0 (mount Demo.props1) eq_refl).
  left. reflexivity.
Defined.

(** ** Renders *)

(** X8: a reset that is allowed, followed by a render at least 1000 ms after
    it, ends with the maximal domain as the domain and no animation; zooming
    out is then not possible. *)
Theorem reset_completes_at_max_domain
    (p : Props) (clock now : JS.number) (s : ViewState) :
  isDomainChangePossible s = true ->
  (1000 <=? now - clock) = true ->
  let s' := commit p now (onZoomReset p clock s) in
  domain s' = (maxDomainStart p, maxDomainEnd p) /\
  animation s' = none /\
  isZoomOutPossible p s' = false.
Proof.
  intros Hok Hlate s'. subst s'.
  unfold onZoomReset. rewrite Hok.
  apply JSFacts.leb_not_ltb in Hlate.
  assert (Hd : domain (commit p now
                 (setDomainAnimated clock (maxDomainStart p, maxDomainEnd p) s))
               = (maxDomainStart p, maxDomainEnd p)).
  { unfold commit, setDomainAnimated. simpl animation.
    unfold animationEffect, animationDuration. simpl startMs. rewrite Hlate.
    destruct (sameDeps _ _); reflexivity. }
  split; [exact Hd | split].
  - unfold commit, setDomainAnimated. simpl animation.
    unfold animationEffect, animationDuration. simpl startMs. rewrite Hlate.
    destruct (sameDeps _ _); reflexivity.
  - unfold isZoomOutPossible. rewrite Hd. simpl fst. simpl snd.
    apply FloatOrderFacts.ltb_irrefl.
Qed.

Lemma reset_completes_at_max_domain_witness :
  domain (commit Demo.props1 3000
            (onZoomReset Demo.props1 2000
               (commit Demo.props1 1000 Demo.zooming)))
  = (1000, 2000).
Proof.
  exact (proj1 (reset_completes_at_max_domain Demo.props1 2000 3000
                  (commit Demo.props1 1000 Demo.zooming) eq_refl eq_refl)).
Defined.

Lemma sameDeps_eq (d d' : Domain) : sameDeps d d' = true <-> d = d'.
Proof.
  unfold sameDeps. rewrite andb_true_iff, !FloatAxioms.Leibniz.eqb_spec.
  destruct d as [a b], d' as [a' b']. simpl. split.
  - intros [-> ->]. reflexivity.
  - intros H. injection H as -> ->. split; reflexivity.
Qed.

(** X9: a render made while no animation is running changes nothing but
    the dependencies React remembers when the extent of the events is the one
    of the previous render, and otherwise resets the domain to the new extent
    (the zoom level is lost only when the extent changes); it never schedules
    a frame. *)
Theorem commit_without_animation (p : Props) (now : JS.number) (s : ViewState) :
  animation s = none ->
  (extentDeps s = calcMaxDomain (events p) ->
   commit p now s = setAnimationDeps (renderedDeps now s) s) /\
  (extentDeps s <> calcMaxDomain (events p) ->
   commit p now s
   = mkView (calcMaxDomain (events p)) none (isMouseOverEvent s)
            (calcMaxDomain (events p)) (pendingFrames s)
            (renderedDeps now s)).
Proof.
  intros Ha. unfold commit. rewrite Ha. simpl animationEffect.
  replace (if animationEffectRuns now s then _ else _)
    with (if sameDeps (extentDeps s) (calcMaxDomain (events p))
          then s else extentEffect (calcMaxDomain (events p)) s)
    by (destruct (animationEffectRuns now s); reflexivity).
  split; intros Hd.
  - rewrite (proj2 (sameDeps_eq _ _) Hd).
    destruct s as [d a h deps q ad]. simpl in *. subst. reflexivity.
  - destruct (sameDeps (extentDeps s) (calcMaxDomain (events p))) eqn:Hs.
    + apply sameDeps_eq in Hs. contradiction.
    + unfold renderedDeps. rewrite Ha. reflexivity.
Qed.

Lemma commit_without_animation_witness :
  domain (commit Demo.props1 5000 (commit Demo.props1 1000 Demo.zooming))
  = (1000, 1500) /\
  pendingFrames (commit Demo.props1 5000 (commit Demo.props1 1000 Demo.zooming))
  = [].
Proof.
  rewrite (proj1 (commit_without_animation Demo.props1 5000
                    (commit Demo.props1 1000 Demo.zooming) eq_refl) eq_refl).
  split; reflexivity.
Defined.

(** ** Marks *)

Module MemoFacts.

Lemma option_eqb_eq {A : Type} (eqb : A -> A -> bool) (x y : option A) :
  (forall a b, eqb a b = true -> a = b) -> option_eqb eqb x y = true -> x = y.
Proof.
  intros H. destruct x as [a | ], y as [b | ]; simpl; intros E;
    try discriminate; try reflexivity.
  f_equal. apply H. exact E.
Qed.

Lemma list_eqb_eq {A : Type} (eqb : A -> A -> bool) (l l' : list A) :
  (forall a b, eqb a b = true -> a = b) -> list_eqb eqb l l' = true -> l = l'.
Proof.
  intros H. revert l'. induction l as [ | a l IH]; intros [ | b l']; simpl;
    intros E; try discriminate; try reflexivity.
  apply andb_true_iff in E. destruct E as [E1 E2].
  f_equal; [apply H; exact E1 | apply IH; exact E2].
Qed.

Lemma float_eqb_eq (x y : float) : PrimFloat.Leibniz.eqb x y = true -> x = y.
Proof. apply FloatAxioms.Leibniz.eqb_spec. Qed.

Lemma string_eqb_eq (x y : string) : String.eqb x y = true -> x = y.
Proof. apply String.eqb_eq. Qed.

Lemma event_eqb_eq (e e' : TimelineEvent) : event_eqb e e' = true -> e = e'.
Proof.
  destruct e, e'. unfold event_eqb. simpl.
  rewrite !andb_true_iff.
  intros (((((((H1 & H2) & H3) & H4) & H5) & H6) & H7) & H8).
  apply string_eqb_eq in H1, H2. apply float_eqb_eq in H3.
  apply (option_eqb_eq _ _ _ float_eqb_eq) in H4.
  apply Bool.eqb_prop in H5, H6.
  apply (option_eqb_eq _ _ _ string_eqb_eq) in H7, H8.
  subst. reflexivity.
Qed.

Lemma key_eqb_eq (k k' : MarksKey) : key_eqb k k' = true -> k = k'.
Proof.
  destruct k as [l [[a b] [c d]]], k' as [l' [[a' b'] [c' d']]].
  unfold key_eqb, scale_eqb. simpl. rewrite !andb_true_iff.
  intros (Hl & ((Ha & Hb) & Hc) & Hd).
  apply (list_eqb_eq _ _ _ event_eqb_eq) in Hl.
  apply float_eqb_eq in Ha, Hb, Hc, Hd. subst. reflexivity.
Qed.

(** A cell that was right for its own key is right for the key of the
    render, whether it is kept or computed anew. *)
Lemma useMemo_ok (P : MarksKey -> list Mark -> Prop)
    (cell : option Memo) (deps : MarksKey) (compute : list Mark) :
  cellOk P cell -> P deps compute ->
  memoDeps (useMemo cell deps compute) = deps /\
  P deps (memoValue (useMemo cell deps compute)).
Proof.
  intros Hcell Hnew. unfold useMemo.
  destruct cell as [m | ]; [ | split; [reflexivity | exact Hnew]].
  destruct (key_eqb (memoDeps m) deps) eqn:Hk;
    [ | split; [reflexivity | exact Hnew]].
  apply key_eqb_eq in Hk. split; [exact Hk | ].
  rewrite <- Hk. apply Hcell. reflexivity.
Qed.

Lemma isSelected_jsonView (l : list TimelineEvent) :
  filter isSelected (map (jsonView false) l)
  = map (jsonView false) (filter isSelected l).
Proof.
  induction l as [ | e l IH]; simpl.
  - reflexivity.
  - destruct (isSelected e); simpl; rewrite IH; reflexivity.
Qed.

Lemma backgroundMarks_ok (evs : list TimelineEvent) (k : ScaleKey) :
  backgroundOk (comparableEventsIgnoringSelection evs, k) (backgroundMarks evs).
Proof.
  unfold backgroundOk, backgroundMarks. rewrite map_markEvent. reflexivity.
Qed.

Lemma foregroundMarks_ok
    (E : Sort.Engine) (evs : list TimelineEvent) (k : ScaleKey) :
  Sort.permutes E ->
  foregroundOk (comparableEventsIgnoringSelection evs, k) (foregroundMarks E evs).
Proof.
  intros HE. unfold foregroundOk, foregroundMarks. rewrite map_markEvent.
  apply Permutation_map. simpl.
  rewrite (MathFacts.filter_all (fun _ => true) evs) by reflexivity.
  apply SortFacts.array_sort_perm. exact HE.
Qed.

Lemma selectionMarks_ok
    (E : Sort.Engine) (evs : list TimelineEvent) (k : ScaleKey) :
  Sort.permutes E ->
  selectionOk (comparableEvents evs, k) (selectionMarks E evs).
Proof.
  intros HE. unfold selectionOk, selectionMarks, comparableEvents.
  rewrite map_markEvent. simpl fst. rewrite isSelected_jsonView.
  apply Permutation_map. apply SortFacts.array_sort_perm. exact HE.
Qed.

Lemma renderMarks_ok
    (E : Sort.Engine) (hooks : MarksHooks) (evs : list TimelineEvent)
    (timeDomain : Domain) (timeRange : JS.number * JS.number) :
  Sort.permutes E -> hooksOk hooks ->
  hooksOk (snd (renderMarks E hooks evs timeDomain timeRange)).
Proof.
  intros HE (Hbg & Hfg & Hsel). unfold renderMarks, hooksOk, cellOk. simpl.
  repeat split; intros m Hm; injection Hm as <-.
  - destruct (useMemo_ok backgroundOk _ _ _ Hbg
                (backgroundMarks_ok evs
                   (comparableTimeScale timeDomain timeRange))) as [-> H].
    exact H.
  - destruct (useMemo_ok foregroundOk _ _ _ Hfg
                (foregroundMarks_ok E evs
                   (comparableTimeScale timeDomain timeRange) HE)) as [-> H].
    exact H.
  - destruct (useMemo_ok selectionOk _ _ _ Hsel
                (selectionMarks_ok E evs
                   (comparableTimeScale timeDomain timeRange) HE)) as [-> H].
    exact H.
Qed.

Lemma renderHistory_ok (E : Sort.Engine) (history : list RenderProps) :
  Sort.permutes E -> hooksOk (renderHistory E history).
Proof.
  intros HE. unfold renderHistory.
  assert (H0 : hooksOk firstRender).
  { repeat split; intros m Hm; discriminate. }
  revert H0. generalize firstRender.
  induction history as [ | r history IH]; intros hooks Hok; simpl.
  - exact Hok.
  - apply IH. apply renderMarks_ok; assumption.
Qed.

End MemoFacts.

(** A render that only toggles [isSelected] keeps the background and
    foreground marks of the previous render: they carry the previous
    events. *)
Example selection_toggle_keeps_previous_marks :
  let before := instant "a" 1000 in
  let after := mkEvent "a" "lane" 1000 None true false None None in
  let hooks := renderHistory Sort.linearRun
                 [([before], ((1000, 2000), (50, 100)))] in
  map markEvent
      (fst (renderMarks Sort.linearRun hooks [after] (1000, 2000) (50, 100)))
  = [before; before; after].
Proof. reflexivity. Qed.

(** X10: in every render of [Marks], after any sequence of earlier renders,
    no pass drops or repeats an event.  Up to what the memo keys do not see
    ([isSelected] for the first two passes, and numbers that [JSON.stringify]
    prints alike), the background marks are the events in array order, the
    foreground marks are a permutation of the events, the selection marks are
    a permutation of the selected events, and the three passes together draw
    two marks per event plus one per selected event.  The first render draws
    exactly [Marks]. *)
Theorem passes_draw_every_event
    (E : Sort.Engine) (history : list RenderProps) (evs : list TimelineEvent)
    (timeDomain : Domain) (timeRange : JS.number * JS.number) :
  Sort.permutes E ->
  let drawn :=
    fst (renderMarks E (renderHistory E history) evs timeDomain timeRange) in
  (exists bg fg sel,
     drawn = bg ++ fg ++ sel /\
     map (jsonView true) (map markEvent bg) = map (jsonView true) evs /\
     Permutation (map (jsonView true) (map markEvent fg))
                 (map (jsonView true) evs) /\
     Permutation (map (jsonView false) (map markEvent sel))
                 (map (jsonView false) (filter isSelected evs))) /\
  List.length drawn
  = (2 * List.length evs + List.length (filter isSelected evs))%nat /\
  (history = [] -> drawn = Marks E evs).
Proof.
  intros HE drawn. subst drawn.
  destruct (MemoFacts.renderHistory_ok E history HE) as (Hbg & Hfg & Hsel).
  set (hooks := renderHistory E history) in *.
  set (k := comparableTimeScale timeDomain timeRange).
  destruct (MemoFacts.useMemo_ok backgroundOk _ _ _ Hbg
              (MemoFacts.backgroundMarks_ok evs k)) as [_ Hb].
  destruct (MemoFacts.useMemo_ok foregroundOk _ _ _ Hfg
              (MemoFacts.foregroundMarks_ok E evs k HE)) as [_ Hf].
  destruct (MemoFacts.useMemo_ok selectionOk _ _ _ Hsel
              (MemoFacts.selectionMarks_ok E evs k HE)) as [_ Hs].
  unfold backgroundOk, foregroundOk, selectionOk in Hb, Hf, Hs.
  simpl fst in Hb, Hf, Hs.
  unfold comparableEvents in Hs. rewrite MemoFacts.isSelected_jsonView in Hs.
  unfold comparableEventsIgnoringSelection in Hb, Hf.
  split; [ | split].
  - eexists _, _, _. split; [reflexivity | ].
    split; [exact Hb | split; [exact Hf | exact Hs]].
  - unfold renderMarks, comparableEventsIgnoringSelection, comparableEvents.
    simpl fst. fold k. rewrite !length_app.
    apply (f_equal (@List.length _)) in Hb.
    apply Permutation_length in Hf, Hs.
    rewrite !length_map in Hb, Hf, Hs.
    rewrite Hb, Hf, Hs. lia.
  - intros Hh. unfold hooks. rewrite Hh. reflexivity.
Qed.

Lemma passes_draw_every_event_witness :
  List.length
    (fst (renderMarks Sort.linearRun
            (renderHistory Sort.linearRun
               [([Demo.longPeriod], ((1000, 2000), (50, 100)))])
            [Demo.longPeriod; Demo.selectedInstant] (1000, 2000) (50, 100)))
  = 5%nat.
Proof.
  exact (proj1 (proj2 (passes_draw_every_event Sort.linearRun
                         [([Demo.longPeriod], ((1000, 2000), (50, 100)))]
                         [Demo.longPeriod; Demo.selectedInstant]
                         (1000, 2000) (50, 100)
                         SortFacts.linearRun_permutes))).
Defined.

(** X11: [isNoEventSelected], which decides whether the mouse cursor is
    drawn, is true exactly when the selection pass over the visible events
    draws nothing. *)
Theorem cursor_iff_no_selection_marks
    (E : Sort.Engine) (evs : list TimelineEvent) (d : Domain) :
  Sort.permutes E ->
  isNoEventSelected evs d = true <->
  selectionMarks E (eventsInsideDomain evs d) = [].
Proof.
  intros HE. unfold isNoEventSelected. rewrite Nat.eqb_eq.
  assert (Hlen : List.length (selectionMarks E (eventsInsideDomain evs d))
                 = List.length (filter isSelected (eventsInsideDomain evs d))).
  { unfold selectionMarks. rewrite length_map.
    apply Permutation_length. apply SortFacts.array_sort_perm. exact HE. }
  rewrite <- Hlen. split.
  - apply length_zero_iff_nil.
  - intros ->. reflexivity.
Qed.

Lemma cursor_iff_no_selection_marks_witness :
  isNoEventSelected [Demo.longPeriod; Demo.selectedInstant] (1000, 1200) = true.
Proof.
  apply (cursor_iff_no_selection_marks Sort.linearRun
           [Demo.longPeriod; Demo.selectedInstant] (1000, 1200)
           SortFacts.linearRun_permutes).
  reflexivity.
Defined.

Section MarkProperties.

Variable scaleApply : Domain -> JS.number * JS.number -> JS.number -> JS.number.
Variable timeDomain : Domain.
Variable timeRange : JS.number * JS.number.

(** X12: an event gets a tooltip exactly when its tooltip text is present
    and not the empty string. *)
Theorem tooltip_skipped_iff
    (y xOffset yOffset : JS.number) (e : TimelineEvent) :
  interactiveEventTooltip scaleApply timeDomain timeRange y e xOffset yOffset
  = None
  <-> tooltip e = None \/ tooltip e = Some EmptyString.
Proof.
  unfold interactiveEventTooltip.
  destruct (tooltip e) as [text | ].
  - destruct text as [ | c text]; simpl.
    + split; [intros _; right; reflexivity | reflexivity].
    + split; [discriminate | intros [H | H]; discriminate].
  - split; [intros _; left; reflexivity | reflexivity].
Qed.

Variable defaultEventColor : string.
Variable darkTheme : bool.

(** X13: the default mark of an event has the same shape, fill colour and
    outline in the background role and in the foreground role, selected or
    not: only the style class differs.  The shape is a circle exactly when
    the event has no end time, and the outline is set exactly when the event
    is pinned. *)
Theorem default_mark_geometry
    (e : TimelineEvent) (eventMarkerHeight : option JS.number) (y : JS.number) :
  let bg := defaultEventComponent scaleApply timeDomain timeRange
              defaultEventColor darkTheme e background eventMarkerHeight y in
  let fg := defaultEventComponent scaleApply timeDomain timeRange
              defaultEventColor darkTheme e foreground eventMarkerHeight y in
  shape fg = shape bg /\ fill fg = fill bg /\ stroke fg = stroke bg /\
  className bg = eventBackground /\
  ((exists cx cy r, shape fg = circle cx cy r) <-> endTimeMillis e = None) /\
  (stroke fg <> None <-> isPinned e = true).
Proof.
  unfold defaultEventComponent.
  assert (Hcls : forall cls cls',
    shape (DefaultEventMark scaleApply timeDomain timeRange defaultEventColor
             darkTheme e eventMarkerHeight cls y)
    = shape (DefaultEventMark scaleApply timeDomain timeRange defaultEventColor
               darkTheme e eventMarkerHeight cls' y) /\
    fill (DefaultEventMark scaleApply timeDomain timeRange defaultEventColor
            darkTheme e eventMarkerHeight cls y)
    = fill (DefaultEventMark scaleApply timeDomain timeRange defaultEventColor
              darkTheme e eventMarkerHeight cls' y) /\
    stroke (DefaultEventMark scaleApply timeDomain timeRange defaultEventColor
              darkTheme e eventMarkerHeight cls y)
    = stroke (DefaultEventMark scaleApply timeDomain timeRange
                defaultEventColor darkTheme e eventMarkerHeight cls' y)).
  { intros cls cls'. unfold DefaultEventMark.
    destruct (endTimeMillis e); repeat split; reflexivity. }
  assert (Hshape : forall cls,
    (exists cx cy r,
       shape (DefaultEventMark scaleApply timeDomain timeRange
                defaultEventColor darkTheme e eventMarkerHeight cls y)
       = circle cx cy r) <-> endTimeMillis e = None).
  { intros cls. unfold DefaultEventMark.
    destruct (endTimeMillis e); simpl; split.
    - intros (cx & cy & r & H). discriminate.
    - discriminate.
    - reflexivity.
    - intros _. eexists _, _, _. reflexivity. }
  assert (Hstroke : forall cls,
    stroke (DefaultEventMark scaleApply timeDomain timeRange
              defaultEventColor darkTheme e eventMarkerHeight cls y) <> None
    <-> isPinned e = true).
  { intros cls. unfold DefaultEventMark.
    destruct (endTimeMillis e), (isPinned e); simpl; split;
      congruence. }
  destruct (isSelected e); [ | destruct (endTruthy e)];
    (split; [apply Hcls | ]); (split; [apply Hcls | ]);
    (split; [apply Hcls | ]); (split; [unfold DefaultEventMark;
      destruct (endTimeMillis e); reflexivity | ]);
    (split; [apply Hshape | apply Hstroke]).
Qed.

End MarkProperties.

(** ** Pan and tween, continued *)



(** X14: when a pan changes the domain and the new domain is ordered (its
    start is not above its end), both new endpoints lie strictly between
    [maxDomainStart] and [maxDomainEnd]. *)
Theorem pan_applied_strictly_inside
    (p : Props) (pixelDelta : JS.number) (s : ViewState) :
  domain (onPan p pixelDelta s) <> domain s ->
  (fst (domain (onPan p pixelDelta s)) <=? snd (domain (onPan p pixelDelta s)))
  = true ->
  let d := domain (onPan p pixelDelta s) in
  (maxDomainStart p <? fst d) = true /\ (fst d <? maxDomainEnd p) = true /\
  (maxDomainStart p <? snd d) = true /\ (snd d <? maxDomainEnd p) = true.
Proof.
  unfold onPan.
  destruct (isDomainChangePossible s); [ | intros H; elim H; reflexivity].
  destruct (pannedDomain p pixelDelta s) as [newMin newMax].
  destruct (JS.gtb newMin (maxDomainStart p) && (newMax <? maxDomainEnd p))
    eqn:Hin; [ | intros H; elim H; reflexivity].
  apply andb_true_iff in Hin. destruct Hin as [Hlo Hhi]. unfold JS.gtb in Hlo.
  simpl. intros _ Hord. repeat split.
  - exact Hlo.
  - apply (FloatOrderFacts.leb_ltb_trans _ _ _ Hord Hhi).
  - apply (FloatOrderFacts.ltb_leb_trans _ _ _ Hlo Hord).
  - exact Hhi.
Qed.

Lemma pan_applied_strictly_inside_witness :
  let d := domain (onPan Demo.props1 5 (onEventUnhoverDecorated Demo.hovering)) in
  (maxDomainStart Demo.props1 <? fst d) = true /\
  (fst d <? maxDomainEnd Demo.props1) = true /\
  (maxDomainStart Demo.props1 <? snd d) = true /\
  (snd d <? maxDomainEnd Demo.props1) = true.
Proof.
  apply (pan_applied_strictly_inside Demo.props1 5
           (onEventUnhoverDecorated Demo.hovering)).
  - intros H. apply (f_equal (fun d => fst d =? 1000)) in H.
    vm_compute in H. discriminate.
  - reflexivity.
Defined.

(** X15: when the extent of the events changes in a render made while a
    tween is in flight (elapsed below 1000 ms, no frame pending) and in which
    the animation effect runs (the animation or [now] is not the one of the
    previous render), that render sets the domain to the new extent and the
    animation to [none], and it still schedules the tween's frame: when that
    frame runs, the domain is the tween's interpolated domain again, not the
    new extent. *)
Theorem extent_change_during_tween
    (p : Props) (now : JS.number) (a : Tween) (s : ViewState) :
  animation s = running a ->
  pendingFrames s = [] ->
  animationEffectRuns now s = true ->
  (now - startMs a <? 1000) = true ->
  extentDeps s <> calcMaxDomain (events p) ->
  let elapsed := now - startMs a in
  let s1 := commit p now s in
  domain s1 = calcMaxDomain (events p) /\
  animation s1 = none /\
  List.length (pendingFrames s1) = 1%nat /\
  domain (animationFrame s1) =
  (fst (fromDomain a) + elapsed / 1000 * (fst (toDomain a) - fst (fromDomain a)),
   snd (fromDomain a) + elapsed / 1000 * (snd (toDomain a) - snd (fromDomain a))).
Proof.
  intros Ha Hq Hrun Hel Hd elapsed s1. subst elapsed s1.
  unfold commit. rewrite Hrun, Ha.
  destruct (sameDeps (extentDeps s) (calcMaxDomain (events p))) eqn:Hs.
  { apply sameDeps_eq in Hs. contradiction. }
  unfold animationEffect, animationDuration. rewrite Hel.
  repeat split.
  - simpl. rewrite Hq. reflexivity.
  - unfold animationFrame. simpl. rewrite Hq. simpl. unfold runFrame. simpl.
    match goal with
    | |- context [if ?g then _ else _] => destruct g
    end; reflexivity.
Qed.

Lemma extent_change_during_tween_witness :
  domain (commit Demo.props2 375 Demo.zooming) = (1000, 4000) /\
  domain (animationFrame (commit Demo.props2 375 Demo.zooming)) = (1000, 1812.5).
Proof.
  assert (Hd : extentDeps Demo.zooming <> calcMaxDomain (events Demo.props2)).
  { intros H. apply (f_equal (fun d => snd d =? 2000)) in H.
    vm_compute in H. discriminate. }
  destruct (extent_change_during_tween Demo.props2 375
              (mkTween 0 (1000, 2000) (1000, 1500)) Demo.zooming
              eq_refl eq_refl eq_refl eq_refl Hd) as (H1 & _ & _ & H2).
  split; [exact H1 | exact H2].
Defined.
